(** * Smart-Blog-Editor: the auto-save pipeline

    A shallow embedding of [frontend/src/utils/debounce.js] (the [debounce]
    primitive) and of [frontend/src/hooks/useAutoSave.js] (the save
    coordinator hook), together with the host facilities both rely on:
    the timer table behind [setTimeout]/[clearTimeout], a millisecond
    clock, and the pending promise of [postsAPI.update].

    JavaScript runs these callbacks one at a time, so every handler below is
    an atomic state transformer; an [async] function suspended at an [await]
    is an entry of the list of running activations.  What the hook receives
    from outside (the [postId] prop, the value of [useDebounce], the calls
    of [saveNow], the passing of time and the answers of the server) are
    the events of a step function; a scripted server turns the same step
    function into a deterministic run. *)

From stdpp Require Import gmap strings list.
From Stdlib Require Import ZArith Lia Sorted.

Open Scope Z_scope.

(** ** JavaScript values seen by the hook *)

Module JS.

(** Primitive values and opaque object references.  Numbers are integers:
    neither file computes with fractions or NaN. *)
Inductive val :=
| VUndefined
| VNull
| VBool (b : bool)
| VNum (n : Z)
| VStr (s : string)
| VRef (r : nat).

#[global] Instance val_eq_dec : EqDecision val.
Proof. solve_decision. Defined.

(** [!!v] of JavaScript. *)
Definition truthy (v : val) : bool :=
  match v with
  | VUndefined | VNull => false
  | VBool b => b
  | VNum n => negb (n =? 0)
  | VStr s => negb (String.eqb s "")
  | VRef _ => true
  end.

(** [a !== b]. *)
Definition strict_ne (a b : val) : bool := negb (bool_decide (a = b)).

(** [a || b]. *)
Definition or_else (a b : val) : val := if truthy a then a else b.

(** A plain object: own properties by name. *)
Abbreviation obj := (gmap string val).

(** [contentToSave]: an object, or [None] for [null]/[undefined]. *)
Abbreviation content := (option (gmap string val)).

(** [c?.postId]: [undefined] when [c] is nullish or has no such field. *)
Definition get_postId (c : content) : val :=
  match c with
  | Some o => default VUndefined (o !! "postId")
  | None => VUndefined
  end.

(** [const { postId: _, ...contentForAPI } = c || {}]. *)
Definition contentForAPI (c : content) : obj :=
  delete "postId" (default ∅ c).

(** [!!c] for a content: objects are truthy, nullish is not. *)
Definition content_truthy (c : content) : bool :=
  match c with Some _ => true | None => false end.

End JS.

(** ** [debounce(func, wait)] *)

Module Debounce.
Section Debounce.

(** The argument list of one call of the debounced function. *)
Context {A : Type}.

(** One entry of the host's timer table: the timer created by
    [setTimeout(() => { func.apply(this, args); timeoutId = null }, wait)]. *)
Record timer := Timer { tid : nat; due : Z; targs : A }.

Record dstate := DState {
  clock : Z;                (* host time, in ms *)
  timeoutId : option nat;   (* the closure variable; [None] is [null] *)
  pending : list timer;     (* host timer table *)
  next_tid : nat;           (* next timer id handed out by the host *)
  executions : list A       (* calls of [func] so far, oldest first *)
}.

(** State right after [debounce(func, wait)] returns, at host time [t0]. *)
Definition create (t0 : Z) : dstate :=
  DState t0 None [] 0 [].

Definition clearTimeout (id : nat) (s : dstate) : dstate :=
  DState (clock s) (timeoutId s)
         (filter (fun tm => tid tm ≠ id) (pending s))
         (next_tid s) (executions s).

(** [debounced(...args)]. *)
Definition debounced (wait : Z) (args : A) (s : dstate) : dstate :=
  let s1 := match timeoutId s with
            | Some id => clearTimeout id s
            | None => s
            end in
  let id := next_tid s1 in
  DState (clock s1) (Some id)
         (pending s1 ++ [Timer id (clock s1 + Z.max 0 wait) args])
         (S id) (executions s1).

(** [debounced.cancel()]. *)
Definition cancel (s : dstate) : dstate :=
  match timeoutId s with
  | Some id =>
      let s1 := clearTimeout id s in
      DState (clock s1) None (pending s1) (next_tid s1) (executions s1)
  | None => s
  end.

(** The host runs the callback of timer [tm]. *)
Definition fire (tm : timer) (s : dstate) : dstate :=
  DState (Z.max (clock s) (due tm)) None
         (filter (fun x => tid x ≠ tid tm) (pending s))
         (next_tid s) (executions s ++ [targs tm]).

(** The timer the host runs next: the earliest one, the oldest on a tie. *)
Fixpoint earliest (l : list timer) : option timer :=
  match l with
  | [] => None
  | tm :: l' =>
      match earliest l' with
      | Some tm' => if due tm' <? due tm then Some tm' else Some tm
      | None => Some tm
      end
  end.

Fixpoint run_timers (fuel : nat) (T : Z) (s : dstate) : dstate :=
  match fuel with
  | O => s
  | S n =>
      match earliest (pending s) with
      | Some tm => if due tm <=? T then run_timers n T (fire tm s) else s
      | None => s
      end
  end.

(** Host time passes until [T]; every timer due by then runs.  A callback
    of [debounce] starts no timer, so the table's length is fuel enough. *)
Definition elapse (T : Z) (s : dstate) : dstate :=
  let s1 := run_timers (length (pending s)) T s in
  DState (Z.max (clock s1) T) (timeoutId s1) (pending s1)
         (next_tid s1) (executions s1).

(** A burst: each call [(t, args)] happens at host time [t]. *)
Definition burst (wait : Z) (calls : list (Z * A)) (s : dstate) : dstate :=
  fold_left (fun s c => debounced wait (snd c) (elapse (fst c) s)) calls s.

(** Nothing is scheduled. *)
Definition settled (s : dstate) : Prop :=
  timeoutId s = None /\ pending s = [].

(** Exactly one run of [func] is scheduled, at [d], with arguments [a]. *)
Definition armed (s : dstate) (d : Z) (a : A) : Prop :=
  exists id, timeoutId s = Some id /\ pending s = [Timer id d a].

End Debounce.
Arguments timer : clear implicits.
Arguments dstate : clear implicits.
End Debounce.

(** ** [useAutoSave(postId, content, delay)] *)

Module AutoSave.
Import JS.

(** ['idle' | 'saving' | 'saved' | 'retrying' | 'error']. *)
Inductive Status := Idle | Saving | Saved | Retrying | Error.

Definition maxRetries : nat := 3.

(** How the promise of [postsAPI.update] settles; a rejection carries
    [err.response?.data?.detail]. *)
Inductive api_result :=
| Fulfilled
| Rejected (detail : val).

(** An activation of [saveContent] suspended at one of its two [await]s.
    [p] is the [postId] captured by the closure, [c] its [contentToSave];
    [k] is the position in the call log of the request being awaited. *)
Inductive activation :=
| Backoff (until : Z) (p : val) (c : content)
| Awaiting (k : nat) (p : val) (c : content).

(** One call [postsAPI.update(target, body)].  [origin] is the
    [contentToSave] the body was cut from; the server never sees it. *)
Record api_call := ApiCall {
  at_time : Z;
  target : val;
  body : obj;
  origin : content
}.

(** A retry timer [setTimeout(() => saveContent(contentToSave), 1000)]:
    due time, the closure's [postId], and [contentToSave]. *)
Record retry_timer := RetryTimer {
  fires_at : Z;
  timer_postId : val;
  timer_content : content
}.

Record hook := Hook {
  postId : val;                  (* the prop of the latest render *)
  status : Status;               (* useState *)
  error : val;                   (* useState *)
  lastSaved : option Z;          (* useState *)
  retryCount : nat;              (* useRef(0) *)
  isMounted : bool;              (* useRef(true) *)
  saveQueue : list content;      (* useRef([]) *)
  isSaving : bool;               (* useRef(false) *)
  clock : Z;                     (* host time, in ms *)
  timers : list retry_timer;     (* host timer table *)
  running : list activation;     (* suspended activations of saveContent *)
  api_log : list api_call        (* calls of postsAPI.update, oldest first *)
}.

Definition with_postId (v : val) (s : hook) : hook :=
  Hook v (status s) (error s) (lastSaved s) (retryCount s) (isMounted s)
       (saveQueue s) (isSaving s) (clock s) (timers s) (running s) (api_log s).
Definition with_status (v : Status) (s : hook) : hook :=
  Hook (postId s) v (error s) (lastSaved s) (retryCount s) (isMounted s)
       (saveQueue s) (isSaving s) (clock s) (timers s) (running s) (api_log s).
Definition with_error (v : val) (s : hook) : hook :=
  Hook (postId s) (status s) v (lastSaved s) (retryCount s) (isMounted s)
       (saveQueue s) (isSaving s) (clock s) (timers s) (running s) (api_log s).
Definition with_lastSaved (v : option Z) (s : hook) : hook :=
  Hook (postId s) (status s) (error s) v (retryCount s) (isMounted s)
       (saveQueue s) (isSaving s) (clock s) (timers s) (running s) (api_log s).
Definition with_retryCount (v : nat) (s : hook) : hook :=
  Hook (postId s) (status s) (error s) (lastSaved s) v (isMounted s)
       (saveQueue s) (isSaving s) (clock s) (timers s) (running s) (api_log s).
Definition with_isMounted (v : bool) (s : hook) : hook :=
  Hook (postId s) (status s) (error s) (lastSaved s) (retryCount s) v
       (saveQueue s) (isSaving s) (clock s) (timers s) (running s) (api_log s).
Definition with_saveQueue (v : list content) (s : hook) : hook :=
  Hook (postId s) (status s) (error s) (lastSaved s) (retryCount s) (isMounted s)
       v (isSaving s) (clock s) (timers s) (running s) (api_log s).
Definition with_isSaving (v : bool) (s : hook) : hook :=
  Hook (postId s) (status s) (error s) (lastSaved s) (retryCount s) (isMounted s)
       (saveQueue s) v (clock s) (timers s) (running s) (api_log s).
Definition with_clock (v : Z) (s : hook) : hook :=
  Hook (postId s) (status s) (error s) (lastSaved s) (retryCount s) (isMounted s)
       (saveQueue s) (isSaving s) v (timers s) (running s) (api_log s).
Definition with_timers (v : list retry_timer) (s : hook) : hook :=
  Hook (postId s) (status s) (error s) (lastSaved s) (retryCount s) (isMounted s)
       (saveQueue s) (isSaving s) (clock s) v (running s) (api_log s).
Definition with_running (v : list activation) (s : hook) : hook :=
  Hook (postId s) (status s) (error s) (lastSaved s) (retryCount s) (isMounted s)
       (saveQueue s) (isSaving s) (clock s) (timers s) v (api_log s).
Definition with_api_log (v : list api_call) (s : hook) : hook :=
  Hook (postId s) (status s) (error s) (lastSaved s) (retryCount s) (isMounted s)
       (saveQueue s) (isSaving s) (clock s) (timers s) (running s) v.

(** The refs and state of the first render, before any effect has run. *)
Definition blank : hook :=
  Hook VUndefined Idle VNull None 0%nat true [] false 0 [] [] [].

(** [await postsAPI.update(postId, contentForAPI)]: the request leaves and
    the activation is suspended until the promise settles. *)
Definition issue_call (p : val) (c : content) (s : hook) : hook :=
  let k := length (api_log s) in
  with_running (running s ++ [Awaiting k p c])
    (with_api_log (api_log s ++ [ApiCall (clock s) p (contentForAPI c) c]) s).

(** The identity test of line 45:
    [contentToSave?.postId && contentToSave.postId !== postId]. *)
Definition postId_mismatch (p : val) (c : content) : bool :=
  truthy (get_postId c) && strict_ne (get_postId c) p.

(** [Math.pow(2, retryCount.current) * 1000]. *)
Definition backoffDelay (s : hook) : Z :=
  2 ^ Z.of_nat (retryCount s) * 1000.

(** [saveContent(contentToSave)] of the closure that captured [postId = p],
    up to its first [await]. *)
Definition saveContent (p : val) (c : content) (s : hook) : hook :=
  if negb (truthy p) || isSaving s then
    with_saveQueue (saveQueue s ++ [c]) s
  else if postId_mismatch p c then
    s
  else
    let s1 := with_error VNull (with_status Saving (with_isSaving true s)) in
    if (0 <? retryCount s1)%nat then
      with_running (running s1 ++ [Backoff (clock s1 + backoffDelay s1) p c]) s1
    else
      issue_call p c s1.

(** The rest of the [try] block after a fulfilled call. *)
Definition on_fulfilled (s : hook) : hook :=
  if isMounted s then
    with_retryCount 0%nat (with_lastSaved (Some (clock s)) (with_status Saved s))
  else s.

(** The [catch] block. *)
Definition on_rejected (p : val) (c : content) (detail : val) (s : hook) : hook :=
  if (retryCount s <? maxRetries)%nat then
    let s1 := with_retryCount (S (retryCount s)) s in
    if isMounted s1 then
      with_timers (timers s1 ++ [RetryTimer (clock s1 + 1000) p c])
        (with_status Retrying s1)
    else s1
  else
    let s1 := if isMounted s then
                with_error (or_else detail (VStr "Failed to save"))
                  (with_status Error s)
              else s in
    with_retryCount 0%nat s1.

(** The [finally] block: release the flag, then run the newest queued
    content and forget the others. *)
Definition finally (p : val) (s : hook) : hook :=
  let s1 := with_isSaving false s in
  match last (saveQueue s1) with
  | Some nextContent => saveContent p nextContent (with_saveQueue [] s1)
  | None => s1
  end.

(** [if (x && postId) saveContent(x)]: the body shared by the effect on
    [debouncedContent] (line 114) and by [saveNow] (line 137). *)
Definition trigger (c : content) (s : hook) : hook :=
  if content_truthy c && truthy (postId s) then saveContent (postId s) c s
  else s.

(** A render with a new [postId]: the save effect runs with the new
    closure, then the effect of line 123 empties the queue.  The value of
    [useDebounce(content, delay)] at that render is given from outside. *)
Definition render (p : val) (debouncedContent : content) (s : hook) : hook :=
  with_saveQueue [] (trigger debouncedContent (with_postId p s)).

Inductive event :=
| Render (p : val) (debouncedContent : content)
| DebouncedContent (c : content)
| SaveNow (c : content)
| Unmount
| AdvanceTo (t : Z)
| TimerFires (i : nat)
| BackoffEnds (i : nat)
| ApiSettles (i : nat) (r : api_result).

(** One turn of the event loop; [None] when the event cannot happen in [s]
    (no such timer or activation, or it is not due yet). *)
Definition step (e : event) (s : hook) : option hook :=
  match e with
  | Render p dc => Some (render p dc s)
  | DebouncedContent c => Some (trigger c s)
  | SaveNow c => Some (trigger c s)
  | Unmount => Some (with_isMounted false s)
  | AdvanceTo t => Some (with_clock (Z.max (clock s) t) s)
  | TimerFires i =>
      match timers s !! i with
      | Some tm =>
          if fires_at tm <=? clock s then
            Some (saveContent (timer_postId tm) (timer_content tm)
                    (with_timers (delete i (timers s)) s))
          else None
      | None => None
      end
  | BackoffEnds i =>
      match running s !! i with
      | Some (Backoff d p c) =>
          if d <=? clock s then
            Some (issue_call p c (with_running (delete i (running s)) s))
          else None
      | _ => None
      end
  | ApiSettles i r =>
      match running s !! i with
      | Some (Awaiting _ p c) =>
          let s1 := with_running (delete i (running s)) s in
          Some (finally p
                  match r with
                  | Fulfilled => on_fulfilled s1
                  | Rejected d => on_rejected p c d s1
                  end)
      | _ => None
      end
  end.

Fixpoint steps (evs : list event) (s : hook) : option hook :=
  match evs with
  | [] => Some s
  | e :: evs' =>
      match step e s with
      | Some s' => steps evs' s'
      | None => None
      end
  end.

(** States the hook can be in: what some sequence of events produces from
    the first render. *)
Definition reachable (s : hook) : Prop :=
  exists evs, steps evs blank = Some s.

(** *** Vocabulary for the properties *)

Definition act_postId (a : activation) : val :=
  match a with Backoff _ p _ | Awaiting _ p _ => p end.

Definition act_content (a : activation) : content :=
  match a with Backoff _ _ c | Awaiting _ _ c => c end.

(** The flag [isSaving] is up exactly while one activation is suspended. *)
Definition exclusive (s : hook) : Prop :=
  (isSaving s = true /\ exists a, running s = [a])
  \/ (isSaving s = false /\ running s = []).

(** An activation runs for a closure with a usable [postId], on a content
    that passed the identity test of that closure. *)
Definition accepted (p : val) (c : content) : Prop :=
  truthy p = true /\ postId_mismatch p c = false.

(** What holds of every state the hook can reach. *)
Definition coherent (s : hook) : Prop :=
  exclusive s
  /\ Forall (fun a => accepted (act_postId a) (act_content a)) (running s)
  /\ Forall (fun tm => accepted (timer_postId tm) (timer_content tm)) (timers s)
  /\ Forall (fun call => accepted (target call) (origin call)
                         /\ body call = contentForAPI (origin call))
            (api_log s)
  /\ (isSaving s = false -> saveQueue s = []).

(** "While a retry is scheduled nothing else executes": every suspended
    activation belongs to the request of every pending retry timer. *)
Definition retry_holds_coordinator (s : hook) : Prop :=
  forall tm a, tm ∈ timers s -> a ∈ running s ->
    act_postId a = timer_postId tm /\ act_content a = timer_content tm.

(** What the server saw of one call. *)
Definition seen (call : api_call) : val * obj := (target call, body call).

(** *** Sample documents and drafts *)

Definition post_a : val := VStr "a".
Definition post_b : val := VStr "b".

(** [{ postId: p, title: title }]. *)
Definition draft_obj (p : val) (title : string) : obj :=
  <["postId" := p]> (<["title" := VStr title]> ∅).

Definition draft (p : val) (title : string) : content :=
  Some (draft_obj p title).

(** Draft v1 of post a is being saved, v2 waits in the queue, and the call
    for v1 is rejected. *)
Definition overtaking_trace : list event :=
  [Render post_a None; SaveNow (draft post_a "v1"); SaveNow (draft post_a "v2");
   ApiSettles 0 (Rejected VUndefined)].

(** Three drafts of post a are submitted while the call for the first is
    still pending. *)
Definition pile_up_trace : list event :=
  [Render post_a None; SaveNow (draft post_a "v1"); SaveNow (draft post_a "v2");
   SaveNow (draft post_a "v3")].

(** The call for v1 of post a is rejected once; a retry is scheduled. *)
Definition one_failure_trace : list event :=
  [Render post_a None; SaveNow (draft post_a "v1");
   ApiSettles 0 (Rejected VUndefined)].

(** After that failure the component unmounts; the retry still runs and
    its call is fulfilled. *)
Definition unmounted_success_trace : list event :=
  one_failure_trace
  ++ [Unmount; AdvanceTo 1000; TimerFires 0; AdvanceTo 3000; BackoffEnds 0;
      ApiSettles 0 Fulfilled].

(** *** Running the event loop with a scripted server *)

(** [srv k] is the latency and the outcome of the [k]-th call of
    [postsAPI.update]. *)
Definition oracle := nat -> Z * api_result.

Definition activation_event (srv : oracle) (s : hook) (i : nat) (a : activation)
  : option (Z * event) :=
  match a with
  | Backoff d _ _ => Some (d, BackoffEnds i)
  | Awaiting k _ _ =>
      match api_log s !! k with
      | Some call =>
          Some (at_time call + Z.max 0 (fst (srv k)), ApiSettles i (snd (srv k)))
      | None => None
      end
  end.

Definition timer_event (i : nat) (tm : retry_timer) : Z * event :=
  (fires_at tm, TimerFires i).

(** Everything the host has pending, with the time at which it happens. *)
Definition agenda (srv : oracle) (s : hook) : list (Z * event) :=
  omap id (imap (activation_event srv s) (running s))
  ++ imap timer_event (timers s).

(** The earliest entry, the first listed on a tie. *)
Fixpoint soonest (l : list (Z * event)) : option (Z * event) :=
  match l with
  | [] => None
  | x :: l' =>
      match soonest l' with
      | Some y => if fst y <? fst x then Some y else Some x
      | None => Some x
      end
  end.

(** Let the host run at most [fuel] pending events, each at its own time. *)
Fixpoint run (srv : oracle) (fuel : nat) (s : hook) : hook :=
  match fuel with
  | O => s
  | S n =>
      match soonest (agenda srv s) with
      | Some (t, e) =>
          match steps [AdvanceTo t; e] s with
          | Some s' => run srv n s'
          | None => s
          end
      | None => s
      end
  end.

(** A server that rejects the first two calls and fulfils the others,
    answering at once. *)
Definition flaky : oracle :=
  fun k => (0, if (k <? 2)%nat then Rejected VUndefined else Fulfilled).

(** The mounted hook at time [t], having just called the server for
    [(p, c)] with the retry count at [r], nothing else pending. *)
Definition awaiting_call (pid : val) (st : Status) (err : val)
    (ls : option Z) (r : nat) (t : Z) (log : list api_call)
    (p : val) (c : content) : hook :=
  Hook pid st err ls r true [] true t [] [Awaiting (length log) p c]
       (log ++ [ApiCall t p (contentForAPI c) c]).

(** Nothing is pending: no timer, no activation. *)
Definition quiescent (s : hook) : Prop :=
  timers s = [] /\ running s = [].

End AutoSave.

(** ** [throttle(func, limit)] *)

Module Throttle.
Section Throttle.

Context {A : Type}.

Record tstate := TState {
  clock : Z;                   (* host time, in ms *)
  inThrottle : bool;           (* the closure variable; [undefined] is falsy *)
  resets : list Z;             (* due times of the pending
                                  [() => (inThrottle = false)] timers *)
  executions : list (Z * A)    (* time and arguments of each call of [func] *)
}.

(** State right after [throttle(func, limit)] returns, at host time [t0]. *)
Definition create (t0 : Z) : tstate :=
  TState t0 false [] [].

(** The function returned by [throttle], called with [args]. *)
Definition throttled (limit : Z) (args : A) (s : tstate) : tstate :=
  if inThrottle s then s
  else TState (clock s) true
              (resets s ++ [clock s + Z.max 0 limit])
              (executions s ++ [(clock s, args)]).

(** Host time passes until [T]: every reset timer due by then runs, and
    each of them only lowers the flag. *)
Definition elapse (T : Z) (s : tstate) : tstate :=
  TState (Z.max (clock s) T)
         (if existsb (fun d => d <=? T) (resets s) then false else inThrottle s)
         (filter (fun d => T < d) (resets s))
         (executions s).

(** Calls made one after the other, [(t, args)] at host time [t]. *)
Definition calls_at (limit : Z) (calls : list (Z * A)) (s : tstate) : tstate :=
  fold_left (fun s c => throttled limit (snd c) (elapse (fst c) s)) calls s.

(** Consecutive entries of an execution log are at least [gap] apart. *)
Fixpoint spaced (gap : Z) (log : list (Z * A)) : Prop :=
  match log with
  | [] => True
  | x :: log' =>
      match log' with
      | [] => True
      | y :: _ => fst x + gap <= fst y
      end /\ spaced gap log'
  end.

(** The flag is up exactly while its reset timer is pending, and that timer
    is due [limit] after the last execution. *)
Definition consistent (limit : Z) (s : tstate) : Prop :=
  spaced (Z.max 0 limit) (executions s)
  /\ match last (executions s) with
     | None => inThrottle s = false /\ resets s = []
     | Some x =>
         (inThrottle s = true /\ resets s = [fst x + Z.max 0 limit])
         \/ (inThrottle s = false /\ resets s = []
             /\ fst x + Z.max 0 limit <= clock s)
     end.

(** Whether [limit] has passed at time [t] since the last entry of [log]. *)
Definition window_over (limit : Z) (log : list (Z * A)) (t : Z) : bool :=
  match last log with
  | None => true
  | Some x => fst x + Z.max 0 limit <=? t
  end.

End Throttle.
Arguments tstate : clear implicits.
End Throttle.

(** ** [debounceAdvanced(func, wait, { leading, trailing })] *)

Module DebounceAdvanced.
Section DebounceAdvanced.

Context {A : Type}.

Record options := Options { leading : bool; trailing : bool }.

(** [{ leading = false, trailing = true } = {}]. *)
Definition defaults : options := Options false true.

(** A pending trailing timer: its callback runs [execute] of the call that
    set it, which captured that call's [args] and [now]. *)
Record timer := Timer { tid : nat; due : Z; targs : A; tnow : Z }.

Record astate := AState {
  clock : Z;                   (* [Date.now()] *)
  timeoutId : option nat;
  lastCallTime : Z;
  pending : list timer;        (* host timer table *)
  next_tid : nat;
  executions : list (Z * A)    (* time and arguments of each call of [func] *)
}.

(** State right after [debounceAdvanced(...)] returns, at host time [t0]. *)
Definition create (t0 : Z) : astate :=
  AState t0 None 0 [] 0 [].

Definition clearTimeout (id : nat) (s : astate) : astate :=
  AState (clock s) (timeoutId s) (lastCallTime s)
         (filter (fun tm => tid tm ≠ id) (pending s))
         (next_tid s) (executions s).

(** [execute()] of the call made at [now] with [args]. *)
Definition execute (args : A) (now : Z) (s : astate) : astate :=
  AState (clock s) (timeoutId s) now (pending s) (next_tid s)
         (executions s ++ [(clock s, args)]).

(** [debounced(...args)]. *)
Definition debounced (o : options) (wait : Z) (args : A) (s : astate) : astate :=
  let now := clock s in
  let timeSinceLastCall := now - lastCallTime s in
  let s1 := match timeoutId s with
            | Some id => clearTimeout id s
            | None => s
            end in
  let s2 := if leading o && (wait <? timeSinceLastCall)
            then execute args now s1 else s1 in
  if trailing o then
    let id := next_tid s2 in
    AState (clock s2) (Some id) (lastCallTime s2)
           (pending s2 ++ [Timer id (clock s2 + Z.max 0 wait) args now])
           (S id) (executions s2)
  else s2.

(** [debounced.cancel()]. *)
Definition cancel (s : astate) : astate :=
  match timeoutId s with
  | Some id =>
      let s1 := clearTimeout id s in
      AState (clock s1) None (lastCallTime s1) (pending s1) (next_tid s1)
             (executions s1)
  | None => s
  end.

(** The host runs the callback of timer [tm]: [execute(); timeoutId = null]. *)
Definition fire (tm : timer) (s : astate) : astate :=
  let s1 := AState (Z.max (clock s) (due tm)) (timeoutId s) (lastCallTime s)
                   (filter (fun x => tid x ≠ tid tm) (pending s))
                   (next_tid s) (executions s) in
  let s2 := execute (targs tm) (tnow tm) s1 in
  AState (clock s2) None (lastCallTime s2) (pending s2) (next_tid s2)
         (executions s2).

Fixpoint earliest (l : list timer) : option timer :=
  match l with
  | [] => None
  | tm :: l' =>
      match earliest l' with
      | Some tm' => if due tm' <? due tm then Some tm' else Some tm
      | None => Some tm
      end
  end.

Fixpoint run_timers (fuel : nat) (T : Z) (s : astate) : astate :=
  match fuel with
  | O => s
  | S n =>
      match earliest (pending s) with
      | Some tm => if due tm <=? T then run_timers n T (fire tm s) else s
      | None => s
      end
  end.

(** Host time passes until [T]; every timer due by then runs. *)
Definition elapse (T : Z) (s : astate) : astate :=
  let s1 := run_timers (length (pending s)) T s in
  AState (Z.max (clock s1) T) (timeoutId s1) (lastCallTime s1) (pending s1)
         (next_tid s1) (executions s1).

(** What a user of the debounced function does, each at a host time. *)
Inductive op :=
| Call (t : Z) (args : A)
| Cancel (t : Z)
| Wait (T : Z).

Definition apply_op (o : options) (wait : Z) (s : astate) (x : op) : astate :=
  match x with
  | Call t args => debounced o wait args (elapse t s)
  | Cancel t => cancel (elapse t s)
  | Wait T => elapse T s
  end.

Definition script (o : options) (wait : Z) (ops : list op) (s : astate) : astate :=
  fold_left (apply_op o wait) ops s.

(** The same script run against the plain [debounce]. *)
Definition apply_plain (wait : Z) (s : Debounce.dstate A) (x : op)
  : Debounce.dstate A :=
  match x with
  | Call t args => Debounce.debounced wait args (Debounce.elapse t s)
  | Cancel t => Debounce.cancel (Debounce.elapse t s)
  | Wait T => Debounce.elapse T s
  end.

Definition plain_script (wait : Z) (ops : list op) (s : Debounce.dstate A)
  : Debounce.dstate A :=
  fold_left (apply_plain wait) ops s.

(** A trailing timer seen as a timer of the plain [debounce]. *)
Definition forget (tm : timer) : Debounce.timer A :=
  Debounce.Timer (tid tm) (due tm) (targs tm).

(** The two implementations in step: same clock, same timer handle, same
    pending runs, same arguments executed so far. *)
Definition in_step (sa : astate) (sd : Debounce.dstate A) : Prop :=
  clock sa = Debounce.clock sd
  /\ timeoutId sa = Debounce.timeoutId sd
  /\ map forget (pending sa) = Debounce.pending sd
  /\ next_tid sa = Debounce.next_tid sd
  /\ map snd (executions sa) = Debounce.executions sd.

(** Consecutive entries of an execution log are more than [gap] apart. *)
Fixpoint far_apart (gap : Z) (log : list (Z * A)) : Prop :=
  match log with
  | [] => True
  | x :: log' =>
      match log' with
      | [] => True
      | y :: _ => fst x + gap < fst y
      end /\ far_apart gap log'
  end.

(** With [trailing] off nothing is ever scheduled, and [lastCallTime] is
    the time of the last execution. *)
Definition untimed (wait : Z) (s : astate) : Prop :=
  timeoutId s = None /\ pending s = []
  /\ far_apart wait (executions s)
  /\ match last (executions s) with
     | Some x => lastCallTime s = fst x
     | None => True
     end.

End DebounceAdvanced.
Arguments astate : clear implicits.
Arguments timer : clear implicits.
Arguments op : clear implicits.
End DebounceAdvanced.

(** ** What [useAutoSave] shows to its caller *)

Module AutoSaveView.
Import JS AutoSave.

(** Line 147: [isSaving: status === 'saving' || status === 'retrying']. *)
Definition shown_isSaving (s : hook) : bool :=
  match status s with
  | Saving | Retrying => true
  | _ => false
  end.

(** The longest backoff wait, [2 ^ maxRetries * 1000] ms. *)
Definition longest_backoff : Z := 2 ^ Z.of_nat maxRetries * 1000.

(** What the state shown and the bookkeeping of retries keep true. *)
Definition steady (s : hook) : Prop :=
  (isSaving s = true -> status s = Saving)
  /\ (status s = Error -> truthy (error s) = true)
  /\ (status s ≠ Error -> error s = VNull)
  /\ (status s = Saved -> lastSaved s ≠ None)
  /\ (forall t, lastSaved s = Some t -> t <= clock s)
  /\ (isMounted s = true -> status s = Saving -> isSaving s = true)
  /\ (isMounted s = true -> status s = Retrying -> timers s ≠ [])
  /\ (retryCount s <= maxRetries)%nat
  /\ Forall (fun a => match a with
                      | Backoff d _ _ => d <= clock s + longest_backoff
                      | Awaiting _ _ _ => True
                      end) (running s)
  /\ Forall (fun tm => fires_at tm <= clock s + 1000) (timers s).

(** All of [steady] but the link between [retrying] and a pending timer. *)
Definition steady_but_retrying (s : hook) : Prop :=
  (isSaving s = true -> status s = Saving)
  /\ (status s = Error -> truthy (error s) = true)
  /\ (status s ≠ Error -> error s = VNull)
  /\ (status s = Saved -> lastSaved s ≠ None)
  /\ (forall t, lastSaved s = Some t -> t <= clock s)
  /\ (isMounted s = true -> status s = Saving -> isSaving s = true)
  /\ (retryCount s <= maxRetries)%nat
  /\ Forall (fun a => match a with
                      | Backoff d _ _ => d <= clock s + longest_backoff
                      | Awaiting _ _ _ => True
                      end) (running s)
  /\ Forall (fun tm => fires_at tm <= clock s + 1000) (timers s).

(** Post a is in flight when the page switches to post b and a draft of
    post b is submitted. *)
Definition switch_while_saving : list event :=
  [Render post_a None; SaveNow (draft post_a "v1");
   Render post_b (draft post_a "v1")].

(** A server that answers at once, rejects the first call it receives and
    fulfils every later one. *)
Definition fails_once : oracle :=
  fun k => (0, if (k =? 0)%nat then Rejected VUndefined else Fulfilled).

End AutoSaveView.

(** ** The store's post actions and the page that feeds [useAutoSave] *)

Module Store.
Import JS.

(** [o.k]: [undefined] when [o] has no such property. *)
Definition field (k : string) (o : obj) : val := default VUndefined (o !! k).

(** [o?.k] for [o] an object or [null]. *)
Definition opt_field (k : string) (o : option obj) : val :=
  match o with
  | Some o => field k o
  | None => VUndefined
  end.

(** [a === b]. *)
Definition strict_eq (a b : val) : bool := bool_decide (a = b).

(** The slice of the store the post actions read and write. *)
Record store := Store {
  posts : list obj;
  currentPost : option obj;   (* [None] is [null] *)
  isLoading : bool;
  error : val
}.

(** [updateCurrentPost(updates)]; [{ ...state.currentPost, ...updates }] is
    the union in which [updates] wins. *)
Definition updateCurrentPost (updates : obj) (s : store) : store :=
  match currentPost s with
  | None => s
  | Some cp =>
      let updatedPost := updates ∪ cp in
      let updatedPosts :=
        map (fun post =>
               if strict_eq (field "id" post) (field "id" updatedPost)
               then updatedPost else post) (posts s) in
      Store updatedPosts (Some updatedPost) (isLoading s) (error s)
  end.

(** [publishPost(postId)] after [postsAPI.publish] returned
    [publishedPost]. *)
Definition publishPost_ok (postId : val) (publishedPost : obj) (s : store)
  : store :=
  Store (map (fun post =>
                if strict_eq (field "id" post) postId
                then publishedPost else post) (posts s))
        (if strict_eq (opt_field "id" (currentPost s)) postId
         then Some publishedPost else currentPost s)
        false (error s).

(** Every list entry that carries the current post's id is the current
    post. *)
Definition in_step (s : store) : Prop :=
  forall cp p,
    currentPost s = Some cp -> p ∈ posts s ->
    field "id" p = field "id" cp -> p = cp.

(** *** [EditorPage] *)

(** First argument of [useAutoSave]: [currentPost?.id]. *)
Definition autosave_postId (s : store) : val :=
  opt_field "id" (currentPost s).

(** Second argument of [useAutoSave]:
    [contentModified && currentPost ? { postId, title, content } : null]. *)
Definition autosave_content (contentModified : bool) (s : store) : content :=
  if contentModified then
    match currentPost s with
    | Some cp =>
        Some (<["postId" := field "id" cp]>
              (<["title" := or_else (field "title" cp) (VStr "")]>
               (<["content" := field "content" cp]> ∅)))
    | None => None
    end
  else None.

(** [handleTitleChange(e)] with [e.target.value = newTitle]: the store
    after it, and the new [contentModified]. *)
Definition handleTitleChange (newTitle : string) (s : store) : store * bool :=
  (updateCurrentPost {["title" := VStr newTitle]} s, true).

(** [handleContentChange(newContent)]. *)
Definition handleContentChange (newContent : val) (s : store) : store * bool :=
  (updateCurrentPost {["content" := newContent]} s, true).

(** A post as the server returns it. *)
Definition sample_post (id : Z) (t : string) : obj :=
  <["id" := VNum id]> (<["title" := VStr t]> (<["content" := VRef 0]> ∅)).

End Store.
(** ** [AutoSavePlugin({ postId, onContentChange })] *)

Module AutoSavePlugin.
Import JS.

(** An [EditorState] object of the editor, by reference. *)
Definition editorState := nat.

(** The delay handed to [debounce]. *)
Definition delay : Z := 2000.

Record plugin := Plugin {
  debouncedSave : Debounce.dstate editorState; (* [debouncedSaveRef.current] *)
  lastSavedState : option editorState;         (* [None] is [null] *)
  postIdRef : val;
  onContentChangeRef : val;
  dep_postId : val;            (* [postId] at the last run of the listener effect *)
  dep_onContentChange : val;   (* [onContentChange] at that run *)
  listening : bool;            (* the update listener is registered *)
  forwarded : list editorState (* calls of [onContentChange], oldest first:
                                  the states whose content was passed *)
}.

Definition with_debouncedSave (d : Debounce.dstate editorState) (s : plugin)
  : plugin :=
  Plugin d (lastSavedState s) (postIdRef s) (onContentChangeRef s)
         (dep_postId s) (dep_onContentChange s) (listening s) (forwarded s).

(** [!(!postId || !onContentChange)]: the listener effect registers. *)
Definition registers (pid cb : val) : bool := truthy pid && truthy cb.

(** The first render at host time [t0] and its effects. *)
Definition mount (t0 : Z) (pid cb : val) : plugin :=
  Plugin (Debounce.create t0) None pid cb pid cb (registers pid cb) [].

(** The function handed to [debounce], called with [editorState].  Reading
    the state and building [{ lexical, html }] from it are taken to return
    normally; the content passed on is a function of the state, so the
    state stands for it in [forwarded]. *)
Definition callback (es : editorState) (s : plugin) : plugin :=
  if bool_decide (lastSavedState s = Some es) then s
  else
    Plugin (debouncedSave s) (Some es) (postIdRef s) (onContentChangeRef s)
           (dep_postId s) (dep_onContentChange s) (listening s)
           (if truthy (onContentChangeRef s) then forwarded s ++ [es]
            else forwarded s).

(** The editor reports an update with state [es]. *)
Definition on_update (es : editorState) (s : plugin) : plugin :=
  if listening s
  then with_debouncedSave (Debounce.debounced delay es (debouncedSave s)) s
  else s.

(** Host time passes until [T]: the timers of [debounce] that are due run,
    and each run calls [callback]. *)
Definition elapse (T : Z) (s : plugin) : plugin :=
  let d := Debounce.elapse T (debouncedSave s) in
  fold_left (fun s es => callback es s)
            (drop (length (Debounce.executions (debouncedSave s)))
                  (Debounce.executions d))
            (with_debouncedSave d s).

(** The cleanup of the listener effect: [removeUpdateListener()] and
    [debouncedSaveRef.current.cancel()]. *)
Definition cleanup (s : plugin) : plugin :=
  Plugin (Debounce.cancel (debouncedSave s)) (lastSavedState s)
         (postIdRef s) (onContentChangeRef s)
         (dep_postId s) (dep_onContentChange s) false (forwarded s).

(** A later render with props [pid] and [cb].  When a dependency of the
    listener effect changed, its cleanup runs (if the last run registered
    the listener); then the first effect stores the props in the refs and
    the listener effect runs again. *)
Definition rerender (pid cb : val) (s : plugin) : plugin :=
  let changed :=
    strict_ne pid (dep_postId s) || strict_ne cb (dep_onContentChange s) in
  let s1 := if changed && listening s then cleanup s else s in
  if changed then
    Plugin (debouncedSave s1) (lastSavedState s1) pid cb pid cb
           (registers pid cb) (forwarded s1)
  else
    Plugin (debouncedSave s1) (lastSavedState s1) pid cb
           (dep_postId s1) (dep_onContentChange s1) (listening s1)
           (forwarded s1).

Definition unmount (s : plugin) : plugin :=
  if listening s then cleanup s else s.

Inductive event :=
| Update (es : editorState)
| Elapse (T : Z)
| Rerender (pid cb : val)
| Unmount.

Definition step (e : event) (s : plugin) : plugin :=
  match e with
  | Update es => on_update es s
  | Elapse T => elapse T s
  | Rerender pid cb => rerender pid cb s
  | Unmount => unmount s
  end.

Definition steps (evs : list event) (s : plugin) : plugin :=
  fold_left (fun s e => step e s) evs s.

(** The event runs the cleanup of the listener effect: an unmount, or a
    render in which [postId] or [onContentChange] changed. *)
Definition restarts (e : event) (s : plugin) : bool :=
  match e with
  | Unmount => true
  | Rerender pid cb =>
      strict_ne pid (dep_postId s) || strict_ne cb (dep_onContentChange s)
  | _ => false
  end.

(** No two neighbours of the list are the same state. *)
Definition no_repeat (l : list editorState) : Prop :=
  forall i x y, l !! i = Some x -> l !! S i = Some y -> x ≠ y.

(** What every state of a mounted plugin satisfies. *)
Definition sound (s : plugin) : Prop :=
  (Debounce.settled (debouncedSave s)
   \/ exists d a, Debounce.armed (debouncedSave s) d a)
  /\ (Debounce.pending (debouncedSave s) ≠ [] -> listening s = true)
  /\ (listening s = true -> truthy (onContentChangeRef s) = true)
  /\ onContentChangeRef s = dep_onContentChange s
  /\ lastSavedState s = last (forwarded s)
  /\ no_repeat (forwarded s).

(** Post 1 is open; the editor reports state 5 at time 0 and the page
    switches to post 2 one second later. *)
Definition switch_after_edit : list event :=
  [Update 5%nat; Elapse 1000; Rerender (VNum 2) (VRef 0)].

End AutoSavePlugin.
(** ** [authService] and the interceptors of the API client *)

Module Auth.

(** [localStorage]: string keys, string values. *)
Abbreviation storage := (gmap string string).

Definition TOKEN_KEY : string := "token".
Definition USER_KEY : string := "user".

Definition setToken (token : string) (ls : storage) : storage :=
  <[TOKEN_KEY := token]> ls.

(** [None] is the [null] of [getItem]. *)
Definition getToken (ls : storage) : option string := ls !! TOKEN_KEY.

Definition removeToken (ls : storage) : storage := delete TOKEN_KEY ls.

Definition removeUser (ls : storage) : storage := delete USER_KEY ls.

(** [!!x] for a string or [null]. *)
Definition present (x : option string) : bool :=
  match x with
  | Some v => negb (String.eqb v "")
  | None => false
  end.

Definition isAuthenticated (ls : storage) : bool := present (getToken ls).

Definition logout (ls : storage) : storage := removeUser (removeToken ls).

End Auth.

Module Api.
Import Auth.

Abbreviation headers := (gmap string string).

(** What the interceptors touch outside the request. *)
Record browser := Browser {
  localStorage : storage;
  location_href : string
}.

(** The request interceptor, on [config.headers]. *)
Definition on_request (b : browser) (h : headers) : headers :=
  let token := localStorage b !! "token" in
  if present token
  then <["Authorization" := "Bearer " +:+ default "" token]> h
  else h.

(** The response interceptor's error handler; [status] is
    [error.response?.status], [None] when there is no response. *)
Definition on_response_error (status : option Z) (b : browser) : browser :=
  if bool_decide (status = Some 401) then
    Browser (delete "user" (delete "token" (localStorage b))) "/login"
  else b.

End Api.
(** * Properties of [debounce] *)

Module DebounceSpec.
Import Debounce.
Section Proofs.

Context {A : Type}.
Implicit Types (s : dstate A) (a : A) (t d T wait : Z).

Lemma last_cons_default {B : Type} (l : list B) (x d : B) :
  List.last (x :: l) d = List.last l x.
Proof.
  revert x d. induction l as [|y l IH]; intros x d; [done|].
  change (List.last (x :: y :: l) d) with (List.last (y :: l) d).
  rewrite (IH y d). symmetry. apply IH.
Qed.

Lemma sorted_last_max (l : list (Z * A)) (c : Z * A) :
  StronglySorted Z.le (map fst (c :: l)) ->
  forall x, x ∈ c :: l -> fst x <= fst (List.last l c).
Proof.
  revert c. induction l as [|c' l IH]; intros c Hs x Hin.
  - apply list_elem_of_singleton in Hin as ->. simpl. lia.
  - rewrite last_cons_default.
    apply StronglySorted_inv in Hs as [Hs Hall].
    apply elem_of_cons in Hin as [->|Hin].
    + simpl in Hall. apply Forall_cons in Hall as [Hc _].
      specialize (IH c' Hs c'). etransitivity; [exact Hc | apply IH; left].
    + apply IH; assumption.
Qed.

Lemma clear_own_timer id d a :
  filter (fun tm : timer A => tid tm ≠ id) [Timer id d a] = [].
Proof.
  rewrite filter_cons. simpl. destruct (decide (id ≠ id)); [congruence | done].
Qed.

Lemma elapse_settled s T :
  settled s ->
  settled (elapse T s) /\ executions (elapse T s) = executions s
  /\ clock (elapse T s) = Z.max (clock s) T.
Proof.
  intros [Hid Hp]. unfold elapse, settled. rewrite Hp. simpl.
  rewrite Hp. auto.
Qed.

Lemma elapse_armed_early s d a T :
  armed s d a -> T < d ->
  armed (elapse T s) d a /\ executions (elapse T s) = executions s
  /\ clock (elapse T s) = Z.max (clock s) T.
Proof.
  intros (id & Hid & Hp) Hlt. unfold elapse, armed. rewrite Hp. simpl.
  rewrite Hp. simpl.
  destruct (Z.leb_spec d T) as [Hle|_]; [lia|]. simpl.
  split; [exists id; auto | auto].
Qed.

Lemma elapse_armed_late s d a T :
  armed s d a -> d <= T ->
  settled (elapse T s) /\ executions (elapse T s) = executions s ++ [a].
Proof.
  intros (id & Hid & Hp) Hle. unfold elapse, settled. rewrite Hp. simpl.
  rewrite Hp. simpl.
  destruct (Z.leb_spec d T) as [_|Hlt]; [|lia]. simpl.
  rewrite Hp. rewrite clear_own_timer. auto.
Qed.

Lemma debounced_settled wait a s :
  settled s ->
  armed (debounced wait a s) (clock s + Z.max 0 wait) a
  /\ executions (debounced wait a s) = executions s
  /\ clock (debounced wait a s) = clock s.
Proof.
  intros [Hid Hp]. unfold debounced, armed. rewrite Hid, Hp. simpl.
  split; [eexists; eauto | auto].
Qed.

Lemma debounced_armed wait a s d a0 :
  armed s d a0 ->
  armed (debounced wait a s) (clock s + Z.max 0 wait) a
  /\ executions (debounced wait a s) = executions s
  /\ clock (debounced wait a s) = clock s.
Proof.
  intros (id & Hid & Hp). unfold debounced, armed. rewrite Hid. simpl.
  rewrite Hp, clear_own_timer. simpl.
  split; [eexists; eauto | auto].
Qed.

Lemma cancel_settles s d a :
  armed s d a -> settled (cancel s) /\ executions (cancel s) = executions s.
Proof.
  intros (id & Hid & Hp). unfold cancel, settled. rewrite Hid. simpl.
  rewrite Hp, clear_own_timer. auto.
Qed.

(** A burst that starts with a pending run and keeps calling before that run
    is due only moves the run: nothing executes, and the run carries the
    arguments of the newest call. *)
Lemma burst_rearms wait (calls : list (Z * A)) :
  0 < wait ->
  forall s t0 a0,
    armed s (t0 + wait) a0 -> clock s = t0 ->
    StronglySorted Z.le (t0 :: map fst calls) ->
    Forall (fun c => fst c < t0 + wait) calls ->
    let cN := List.last calls (t0, a0) in
    armed (burst wait calls s) (fst cN + wait) (snd cN)
    /\ clock (burst wait calls s) = fst cN
    /\ executions (burst wait calls s) = executions s.
Proof.
  intros Hw. induction calls as [|[t a] calls IH]; intros s t0 a0 Harm Hclk Hs Hlt.
  - simpl. auto.
  - apply StronglySorted_inv in Hs as [Hs Hall].
    apply Forall_cons in Hlt as [Ht Hlt]. simpl in Ht.
    simpl in Hall. apply Forall_cons in Hall as [Ht0 Hall].
    destruct (elapse_armed_early s _ a0 t Harm Ht) as (Harm1 & Hex1 & Hclk1).
    destruct (debounced_armed wait a _ _ _ Harm1) as (Harm2 & Hex2 & Hclk2).
    assert (Hc : clock (debounced wait a (elapse t s)) = t)
      by (rewrite Hclk2, Hclk1, Hclk; lia).
    rewrite Hclk1, Hclk in Harm2.
    replace (Z.max t0 t + Z.max 0 wait) with (t + wait) in Harm2 by lia.
    specialize (IH _ t a Harm2 Hc).
    assert (Hs' : StronglySorted Z.le (t :: map fst calls)) by exact Hs.
    assert (Hlt' : Forall (fun c => fst c < t + wait) calls).
    { eapply Forall_impl; [exact Hlt|]. simpl. intros. lia. }
    specialize (IH Hs' Hlt').
    change (burst wait ((t, a) :: calls) s)
      with (burst wait calls (debounced wait a (elapse t s))).
    replace (List.last ((t, a) :: calls) (t0, a0)) with (List.last calls (t, a)).
    + destruct IH as (H1 & H2 & H3). rewrite H3, Hex2, Hex1. auto.
    + symmetry. apply last_cons_default.
Qed.

(** C8 — Debounce collapse.  A burst of N >= 1 calls of the debounced
    function (the call [c1] followed by [rest], in the order they happen),
    whose first and last call are less than [wait] apart, makes [func] run
    exactly once, with the arguments of the last call of the burst, once
    [wait] has passed after that last call. *)
Theorem debounce_collapse wait (c1 : Z * A) (rest : list (Z * A)) s T :
  settled s ->
  clock s <= fst c1 ->
  StronglySorted Z.le (map fst (c1 :: rest)) ->
  fst (List.last rest c1) - fst c1 < wait ->
  fst (List.last rest c1) + wait <= T ->
  executions (elapse T (burst wait (c1 :: rest) s))
  = executions s ++ [snd (List.last rest c1)].
Proof.
  intros Hset Hclk Hsort Hwin HT. destruct c1 as [t1 a1].
  simpl in Hclk, Hwin, HT.
  pose proof (sorted_last_max rest (t1, a1) Hsort) as Hmax.
  assert (Hw : 0 < wait).
  { specialize (Hmax (t1, a1)). simpl in Hmax.
    assert (t1 <= fst (List.last rest (t1, a1))); [apply Hmax; left | lia]. }
  destruct (elapse_settled s t1 Hset) as (Hset1 & Hex1 & Hclk1).
  destruct (debounced_settled wait a1 _ Hset1) as (Harm2 & Hex2 & Hclk2).
  rewrite Hclk1 in Harm2, Hclk2.
  replace (Z.max (clock s) t1 + Z.max 0 wait) with (t1 + wait) in Harm2 by lia.
  replace (Z.max (clock s) t1) with t1 in Hclk2 by lia.
  destruct (burst_rearms wait rest Hw _ t1 a1 Harm2 Hclk2 Hsort)
    as (Harm & _ & Hex).
  { apply Forall_forall. intros c Hin.
    assert (fst c <= fst (List.last rest (t1, a1))); [apply Hmax; by right | lia]. }
  change (burst wait ((t1, a1) :: rest) s)
    with (burst wait rest (debounced wait a1 (elapse t1 s))).
  destruct (elapse_armed_late _ _ _ T Harm HT) as (_ & Hfin).
  rewrite Hfin, Hex, Hex2, Hex1. reflexivity.
Qed.

(** C9 — Debounce cancel.  [cancel()] called before the delay has passed
    leaves [func] unexecuted however long one waits afterwards; calling it
    twice is the same as calling it once; and with nothing pending it
    changes nothing. *)
Theorem cancel_discards_pending :
  (forall wait a s t tc T,
      settled s -> clock s <= t -> t <= tc -> tc < t + wait ->
      executions (elapse T (cancel (elapse tc (debounced wait a (elapse t s)))))
      = executions s)
  /\ (forall s, cancel (cancel s) = cancel s)
  /\ (forall s, timeoutId s = None -> cancel s = s).
Proof.
  split; [|split].
  - intros wait a s t tc T Hset Hclk Htc Hlt.
    destruct (elapse_settled s t Hset) as (Hset1 & Hex1 & Hclk1).
    destruct (debounced_settled wait a _ Hset1) as (Harm2 & Hex2 & Hclk2).
    rewrite Hclk1 in Harm2.
    assert (Hd : tc < Z.max (clock s) t + Z.max 0 wait) by lia.
    destruct (elapse_armed_early _ _ _ tc Harm2 Hd) as (Harm3 & Hex3 & _).
    destruct (cancel_settles _ _ _ Harm3) as (Hset4 & Hex4).
    destruct (elapse_settled _ T Hset4) as (_ & Hex5 & _).
    rewrite Hex5, Hex4, Hex3, Hex2, Hex1. reflexivity.
  - intros s. unfold cancel at 1.
    destruct (timeoutId (cancel s)) eqn:E; [|reflexivity].
    unfold cancel in E. destruct (timeoutId s) eqn:E2; simpl in E; congruence.
  - intros s H. unfold cancel. rewrite H. reflexivity.
Qed.

End Proofs.

(** The burst [f("a")] at 0 ms, [f("b")] at 300 ms, [f("c")] at 1900 ms
    against [wait = 2000]: one run, with ["c"]. *)
Lemma debounce_collapse_witness :
  executions (elapse 3900 (burst 2000 [(0, "a"); (300, "b"); (1900, "c")]
                             (create 0)))
  = ["c"]%string.
Proof.
  apply (debounce_collapse 2000 (0, "a"%string) [(300, "b"); (1900, "c")]%string
           (create 0) 3900).
  - split; reflexivity.
  - simpl. lia.
  - repeat constructor; simpl; lia.
  - simpl. lia.
  - simpl. lia.
Defined.

(** [f("a")] at 0 ms, [cancel()] at 1999 ms, [wait = 2000]: no run. *)
Lemma cancel_discards_pending_witness :
  executions (elapse 10000 (cancel (elapse 1999 (debounced 2000 "a"%string
                                                   (elapse 0 (create 0))))))
  = [].
Proof.
  apply (proj1 (cancel_discards_pending (A := string))).
  - split; reflexivity.
  - simpl. lia.
  - lia.
  - lia.
Defined.

End DebounceSpec.

(** * Properties of [useAutoSave] *)

Module AutoSaveSpec.
Import JS AutoSave.

Implicit Types (s : hook) (p : val) (c : content) (e : event).

(** ** What [saveContent] touches *)

Lemma saveContent_queues p c s :
  negb (truthy p) || isSaving s = true ->
  saveContent p c s = with_saveQueue (saveQueue s ++ [c]) s.
Proof. intros H. unfold saveContent. rewrite H. reflexivity. Qed.

Lemma saveContent_drops p c s :
  truthy p = true -> isSaving s = false -> postId_mismatch p c = true ->
  saveContent p c s = s.
Proof. intros Hp Hs Hm. unfold saveContent. rewrite Hp, Hs, Hm. reflexivity. Qed.


(** ** The invariant *)

Lemma coherent_blank : coherent blank.
Proof. unfold coherent, exclusive. simpl. repeat split; auto. Qed.

Lemma singleton_lookup {B : Type} (x y : B) (i : nat) :
  [x] !! i = Some y -> i = 0%nat /\ y = x.
Proof. destruct i as [|i]; simpl; [intros [= ->]; auto | destruct i; discriminate]. Qed.

Lemma saveContent_coherent p c s :
  coherent s -> truthy p = true -> coherent (saveContent p c s).
Proof.
  intros Hc Hp. pose proof Hc as (Hex & Hrun & Htm & Hlog & Hq).
  unfold saveContent. rewrite Hp. simpl.
  destruct (isSaving s) eqn:Hs.
  { unfold coherent. simpl. repeat split; auto. rewrite Hs. discriminate. }
  destruct (postId_mismatch p c) eqn:Hm.
  { exact Hc. }
  assert (Hnil : running s = []).
  { destruct Hex as [[H _]|[_ H]]; [congruence | exact H]. }
  assert (Hadm : accepted p c) by (split; assumption).
  destruct (0 <? retryCount s)%nat;
    unfold coherent, exclusive, issue_call; simpl; rewrite Hnil; simpl.
  - repeat split; auto. left; eauto.
  - repeat split; auto; [left; eauto |].
    apply Forall_app. split; [exact Hlog|]. constructor; [|constructor].
    simpl. auto.
Qed.

Lemma on_fulfilled_fields s :
  isSaving (on_fulfilled s) = isSaving s
  /\ running (on_fulfilled s) = running s
  /\ timers (on_fulfilled s) = timers s
  /\ api_log (on_fulfilled s) = api_log s
  /\ saveQueue (on_fulfilled s) = saveQueue s.
Proof. unfold on_fulfilled. destruct (isMounted s); simpl; auto. Qed.

Lemma on_rejected_fields p c d s :
  isSaving (on_rejected p c d s) = isSaving s
  /\ running (on_rejected p c d s) = running s
  /\ (timers (on_rejected p c d s) = timers s
      \/ timers (on_rejected p c d s)
         = timers s ++ [RetryTimer (clock s + 1000) p c])
  /\ api_log (on_rejected p c d s) = api_log s
  /\ saveQueue (on_rejected p c d s) = saveQueue s.
Proof.
  unfold on_rejected.
  destruct (retryCount s <? maxRetries)%nat; cbn; destruct (isMounted s); simpl;
    repeat split; auto.
Qed.

Lemma finally_coherent p s :
  isSaving s = true -> running s = [] ->
  Forall (fun tm => accepted (timer_postId tm) (timer_content tm)) (timers s) ->
  Forall (fun call => accepted (target call) (origin call)
                      /\ body call = contentForAPI (origin call)) (api_log s) ->
  truthy p = true ->
  coherent (finally p s).
Proof.
  intros Hs Hrun Htm Hlog Hp. unfold finally. simpl.
  assert (Hc : forall q, q = [] ->
             coherent (with_saveQueue q (with_isSaving false s))).
  { intros q ->. unfold coherent, exclusive. simpl. rewrite Hrun.
    repeat split; auto. }
  destruct (last (saveQueue s)) as [next|] eqn:Hl.
  - apply saveContent_coherent; [apply Hc; reflexivity | exact Hp].
  - apply last_None in Hl.
    replace (with_isSaving false s)
      with (with_saveQueue (saveQueue s) (with_isSaving false s))
      by (destruct s; reflexivity).
    apply Hc. exact Hl.
Qed.

Lemma step_coherent e s s' :
  coherent s -> step e s = Some s' -> coherent s'.
Proof.
  intros Hc Hstep. pose proof Hc as (Hex & Hrun & Htm & Hlog & Hq).
  destruct e as [p dc|c|c| |t|i|i|i r]; simpl in Hstep.
  - (* Render *)
    injection Hstep as <-. unfold render, trigger. simpl.
    assert (Hc' : coherent (with_postId p s)) by exact Hc.
    destruct (content_truthy dc && truthy p) eqn:Hb.
    + apply andb_true_iff in Hb as [_ Hp].
      apply (saveContent_coherent p dc) in Hc'; [|exact Hp].
      destruct Hc' as (Hex' & Hrun' & Htm' & Hlog' & _).
      unfold coherent, exclusive in *. simpl. repeat split; auto.
    + unfold coherent, exclusive in *. simpl. repeat split; auto.
  - (* DebouncedContent *)
    injection Hstep as <-. unfold trigger.
    destruct (content_truthy c && truthy (postId s)) eqn:Hb; [|exact Hc].
    apply andb_true_iff in Hb as [_ Hp]. by apply saveContent_coherent.
  - (* SaveNow *)
    injection Hstep as <-. unfold trigger.
    destruct (content_truthy c && truthy (postId s)) eqn:Hb; [|exact Hc].
    apply andb_true_iff in Hb as [_ Hp]. by apply saveContent_coherent.
  - (* Unmount *)
    injection Hstep as <-. exact Hc.
  - (* AdvanceTo *)
    injection Hstep as <-. exact Hc.
  - (* TimerFires *)
    destruct (timers s !! i) as [tm|] eqn:Hi; [|discriminate].
    destruct (fires_at tm <=? clock s); [|discriminate].
    injection Hstep as <-.
    assert (Hadm : accepted (timer_postId tm) (timer_content tm)).
    { rewrite Forall_forall in Htm. apply Htm.
      eapply list_elem_of_lookup_2; eauto. }
    apply saveContent_coherent; [|apply Hadm].
    unfold coherent, exclusive in *. simpl. repeat split; auto.
    by apply Forall_delete.
  - (* BackoffEnds *)
    destruct (running s !! i) as [[d p c|k p c]|] eqn:Hi; try discriminate.
    destruct (d <=? clock s); [|discriminate]. injection Hstep as <-.
    destruct Hex as [[Hs [a Ha]]|[Hs Hnil]]; [|rewrite Hnil in Hi; discriminate].
    rewrite Ha in Hi, Hrun. apply singleton_lookup in Hi as [-> <-].
    apply Forall_inv in Hrun. simpl in Hrun.
    unfold coherent, exclusive, issue_call. simpl. rewrite Ha. simpl.
    repeat split; auto; [left; eauto |].
    apply Forall_app. split; [exact Hlog|]. constructor; [|constructor].
    simpl. auto.
  - (* ApiSettles *)
    destruct (running s !! i) as [[d p c|k p c]|] eqn:Hi; try discriminate.
    injection Hstep as <-.
    destruct Hex as [[Hs [a Ha]]|[Hs Hnil]]; [|rewrite Hnil in Hi; discriminate].
    rewrite Ha in Hi, Hrun. apply singleton_lookup in Hi as [-> <-].
    apply Forall_inv in Hrun. simpl in Hrun.
    destruct r as [|d].
    + destruct (on_fulfilled_fields (with_running (delete 0%nat (running s)) s))
        as (E1 & E2 & E3 & E4 & _).
      apply finally_coherent; [| | | |apply Hrun].
      * by rewrite E1.
      * rewrite E2. simpl. by rewrite Ha.
      * by rewrite E3.
      * by rewrite E4.
    + destruct (on_rejected_fields p c d (with_running (delete 0%nat (running s)) s))
        as (E1 & E2 & E3 & E4 & _).
      apply finally_coherent; [| | | |apply Hrun].
      * by rewrite E1.
      * rewrite E2. simpl. by rewrite Ha.
      * destruct E3 as [-> | ->]; [exact Htm|].
        apply Forall_app. split; [exact Htm|]. constructor; [exact Hrun|constructor].
      * by rewrite E4.
Qed.

Lemma steps_coherent evs s s' :
  coherent s -> steps evs s = Some s' -> coherent s'.
Proof.
  revert s. induction evs as [|e evs IH]; intros s Hc Hs; simpl in Hs.
  - by injection Hs as <-.
  - destruct (step e s) as [s1|] eqn:He; [|discriminate].
    eapply IH; [|exact Hs]. eapply step_coherent; eauto.
Qed.

Lemma reachable_coherent s : reachable s -> coherent s.
Proof. intros [evs H]. eapply steps_coherent; [apply coherent_blank | exact H]. Qed.


(** ** Shape of the transitions *)

Lemma saveContent_retryCount p c s :
  retryCount (saveContent p c s) = retryCount s
  /\ timers (saveContent p c s) = timers s
  /\ isMounted (saveContent p c s) = isMounted s.
Proof.
  unfold saveContent.
  destruct (negb (truthy p) || isSaving s); [by simpl|].
  destruct (postId_mismatch p c); [done|]. simpl.
  destruct (0 <? retryCount s)%nat; by simpl.
Qed.

Lemma saveContent_busy p c s :
  isSaving s = true ->
  running (saveContent p c s) = running s
  /\ api_log (saveContent p c s) = api_log s
  /\ saveQueue (saveContent p c s) = saveQueue s ++ [c].
Proof.
  intros Hs. rewrite saveContent_queues; [by simpl|].
  rewrite Hs. apply orb_true_r.
Qed.

(** Every activation the flag lets through is the only one. *)
Lemma coherent_busy s :
  coherent s -> running s ≠ [] -> isSaving s = true.
Proof. intros ([[H _]|[_ H]] & _) Hne; [exact H | contradiction]. Qed.

Lemma coherent_idle s :
  coherent s -> isSaving s = false -> running s = [] /\ saveQueue s = [].
Proof.
  intros ([[H _]|[_ H]] & _ & _ & _ & Hq) Hs; [congruence | auto].
Qed.

(** What a settling call finds: a single activation, awaiting. *)
Lemma settle_inv s i r s' :
  coherent s -> step (ApiSettles i r) s = Some s' ->
  exists k p c,
    running s = [Awaiting k p c] /\ i = 0%nat /\ accepted p c
    /\ s' = finally p
              match r with
              | Fulfilled => on_fulfilled (with_running [] s)
              | Rejected d => on_rejected p c d (with_running [] s)
              end.
Proof.
  intros (Hex & Hrun & _) Hstep. simpl in Hstep.
  destruct (running s !! i) as [[d p c|k p c]|] eqn:Hi; try discriminate.
  injection Hstep as <-.
  destruct Hex as [[Hs [a Ha]]|[Hs Hnil]]; [|rewrite Hnil in Hi; discriminate].
  rewrite Ha in Hi, Hrun. apply singleton_lookup in Hi as [-> <-].
  apply Forall_inv in Hrun. simpl in Hrun.
  exists k, p, c. rewrite Ha. simpl. auto.
Qed.

(** The [finally] block on a state whose activation has just ended. *)
Lemma finally_result p s :
  truthy p = true -> running s = [] ->
  saveQueue (finally p s) = []
  /\ retryCount (finally p s) = retryCount s
  /\ timers (finally p s) = timers s
  /\ (running (finally p s) = []
      \/ exists a, running (finally p s) = [a] /\ act_postId a = p
                   /\ last (saveQueue s) = Some (act_content a)
                   /\ postId_mismatch p (act_content a) = false).
Proof.
  intros Hp Hrun. unfold finally. simpl.
  destruct (last (saveQueue s)) as [next|] eqn:Hl.
  - unfold saveContent. rewrite Hp. simpl.
    destruct (postId_mismatch p next) eqn:Hm; simpl; [auto|].
    destruct (0 <? retryCount s)%nat; simpl; rewrite Hrun; simpl;
      repeat split; auto; right; eexists; simpl; eauto.
  - apply last_None in Hl. simpl. auto.
Qed.

(** ** In-flight exclusivity *)

(** C2 — In-flight exclusivity, as the hook provides it.  The coordinator
    never has two persistence calls in flight at the same instant: in every
    reachable state at most one activation of [saveContent] is suspended,
    and while one is (a first attempt or a retry), a newly submitted request
    and a retry whose timer fires are only appended to the queue.  A retry
    that is merely scheduled does not hold the coordinator: when an attempt
    fails and is rescheduled, the newest queued request, if it passes the
    identity test, begins execution in the same turn. *)
Theorem one_save_in_flight s :
  reachable s ->
  (length (running s) <= 1)%nat
  /\ (running s ≠ [] ->
      forall c, running (trigger c s) = running s
                /\ api_log (trigger c s) = api_log s)
  /\ (running s ≠ [] ->
      forall i s', step (TimerFires i) s = Some s' ->
        running s' = running s /\ api_log s' = api_log s
        /\ exists tm, timers s !! i = Some tm
                      /\ saveQueue s' = saveQueue s ++ [timer_content tm])
  /\ (forall k p c q next d,
        running s = [Awaiting k p c] -> saveQueue s = q ++ [next] ->
        postId_mismatch p next = false -> isMounted s = true ->
        (retryCount s < maxRetries)%nat ->
        exists s', step (ApiSettles 0 (Rejected d)) s = Some s'
          /\ timers s' = timers s ++ [RetryTimer (clock s + 1000) p c]
          /\ running s'
             = [Backoff (clock s + 2 ^ Z.of_nat (S (retryCount s)) * 1000)
                  p next]).
Proof.
  intros Hr. apply reachable_coherent in Hr. pose proof Hr as (Hex & Hrun & _).
  split; [|split; [|split]].
  - destruct Hex as [[_ [a ->]]|[_ ->]]; simpl; lia.
  - intros Hne c. pose proof (coherent_busy s Hr Hne) as Hs. unfold trigger.
    destruct (content_truthy c && truthy (postId s)); [|done].
    by destruct (saveContent_busy (postId s) c s Hs) as (-> & -> & _).
  - intros Hne i s' Hstep. pose proof (coherent_busy s Hr Hne) as Hs.
    simpl in Hstep. destruct (timers s !! i) as [tm|]; [|discriminate].
    destruct (fires_at tm <=? clock s); [|discriminate]. injection Hstep as <-.
    destruct (saveContent_busy (timer_postId tm) (timer_content tm)
                (with_timers (delete i (timers s)) s) Hs) as (-> & -> & ->).
    simpl. eauto.
  - intros k p c q next d Ha Hq Hm Hmnt Hlt.
    assert (Hp : truthy p = true).
    { rewrite Ha in Hrun. apply Forall_inv in Hrun. apply Hrun. }
    eexists. split.
    { simpl. rewrite Ha. simpl. reflexivity. }
    unfold on_rejected. simpl. apply Nat.ltb_lt in Hlt. rewrite Hlt, Hmnt.
    unfold finally. simpl. rewrite Hq, last_snoc.
    unfold saveContent. simpl. rewrite Hp, Hm. simpl. auto.
Qed.

(** Post a just mounted and its first save is pending. *)
Lemma one_save_in_flight_witness :
  reachable (trigger (draft post_a "v1") (render post_a None blank))
  /\ (length (running (trigger (draft post_a "v1") (render post_a None blank)))
      <= 1)%nat.
Proof.
  assert (Hr : reachable (trigger (draft post_a "v1") (render post_a None blank))).
  { exists [Render post_a None; SaveNow (draft post_a "v1")]. reflexivity. }
  split; [exact Hr | exact (proj1 (one_save_in_flight _ Hr))].
Defined.

(** C2 — a scheduled retry does not hold the coordinator.  With draft v1
    of post a in flight and v2 queued, the rejection of v1 schedules its
    retry and starts v2 at once: a retry timer for v1 is pending while the
    activation for v2 is suspended. *)
Lemma queued_save_overtakes_retry :
  exists s, steps overtaking_trace blank = Some s
            /\ timers s = [RetryTimer 1000 post_a (draft post_a "v1")]
            /\ running s = [Backoff 2000 post_a (draft post_a "v2")]
            /\ ~ retry_holds_coordinator s.
Proof.
  eexists. split; [vm_compute; reflexivity|].
  split; [reflexivity|]. split; [reflexivity|].
  intros H.
  destruct (H (RetryTimer 1000 post_a (draft post_a "v1"))
              (Backoff 2000 post_a (draft post_a "v2"))) as [_ Hc].
  - simpl. left.
  - simpl. left.
  - simpl in Hc.
    apply (f_equal (fun c : content => default ∅ c !! "title")) in Hc.
    vm_compute in Hc. discriminate.
Qed.

(** ** The pending queue *)

(** C3 — The pending queue, as the hook keeps it.  The queue is an array
    that every request received while a save is in flight is appended to,
    so it can hold more than one entry; when the call in flight settles,
    the queue is emptied and at most its newest entry begins execution, the
    older ones being dropped. *)
Theorem queue_drains_to_newest s :
  reachable s ->
  (isSaving s = true -> truthy (postId s) = true ->
   forall o, saveQueue (trigger (Some o) s) = saveQueue s ++ [Some o])
  /\ (forall i r s', step (ApiSettles i r) s = Some s' ->
        saveQueue s' = []
        /\ forall a, a ∈ running s' -> last (saveQueue s) = Some (act_content a)).
Proof.
  intros Hr. apply reachable_coherent in Hr. split.
  - intros Hs Hp o. unfold trigger. simpl. rewrite Hp.
    by destruct (saveContent_busy (postId s) (Some o) s Hs) as (_ & _ & ->).
  - intros i r s' Hstep.
    destruct (settle_inv _ _ _ _ Hr Hstep) as (k & p & c & Ha & -> & [Hp _] & ->).
    set (s2 := match r with
               | Fulfilled => on_fulfilled (with_running [] s)
               | Rejected d => on_rejected p c d (with_running [] s)
               end).
    assert (H2 : running s2 = [] /\ saveQueue s2 = saveQueue s).
    { subst s2. destruct r as [|d].
      - destruct (on_fulfilled_fields (with_running [] s)) as (_ & -> & _ & _ & ->).
        auto.
      - destruct (on_rejected_fields p c d (with_running [] s))
          as (_ & -> & _ & _ & ->). auto. }
    destruct H2 as [Hrun2 Hq2].
    destruct (finally_result p s2 Hp Hrun2) as (Hq & _ & _ & Hcase).
    split; [exact Hq|]. intros a Hin.
    destruct Hcase as [Hnil | (a' & Ha' & _ & Hl & _)].
    + rewrite Hnil in Hin. by apply elem_of_nil in Hin.
    + rewrite Ha' in Hin. apply list_elem_of_singleton in Hin as ->.
      by rewrite <- Hq2.
Qed.

(** Draft v1 of post a is in flight and v2 arrives. *)
Lemma queue_drains_to_newest_witness :
  reachable (trigger (draft post_a "v1") (render post_a None blank))
  /\ saveQueue (trigger (draft post_a "v2")
                  (trigger (draft post_a "v1") (render post_a None blank)))
     = [draft post_a "v2"].
Proof.
  assert (Hr : reachable (trigger (draft post_a "v1") (render post_a None blank))).
  { exists [Render post_a None; SaveNow (draft post_a "v1")]. reflexivity. }
  split; [exact Hr|].
  apply (proj1 (queue_drains_to_newest _ Hr)); reflexivity.
Defined.

(** C3 — the queue is not a single slot: three drafts submitted while the
    first is in flight leave two entries in the queue. *)
Lemma queue_holds_two_entries :
  exists s, steps pile_up_trace blank = Some s
            /\ saveQueue s = [draft post_a "v2"; draft post_a "v3"]
            /\ ~ (length (saveQueue s) <= 1)%nat.
Proof.
  eexists. split; [vm_compute; reflexivity|].
  split; [reflexivity|]. simpl. lia.
Qed.


(** ** Document identity *)

Lemma postId_mismatch_true p c :
  postId_mismatch p c = true <->
  truthy (get_postId c) = true /\ get_postId c ≠ p.
Proof.
  unfold postId_mismatch, strict_ne.
  rewrite andb_true_iff, negb_true_iff, bool_decide_eq_false. reflexivity.
Qed.




(** ** The retry count *)

Lemma finally_retryCount p s : retryCount (finally p s) = retryCount s.
Proof.
  unfold finally.
  destruct (last (saveQueue (with_isSaving false s))) as [c|]; [|done].
  by destruct (saveContent_retryCount p c
                 (with_saveQueue [] (with_isSaving false s))) as (-> & _).
Qed.

(** C7 — Resets of the retry count.  The count is reset to zero by every
    successful save that completes while the hook is mounted.  A change of
    the active document identity leaves the count as it is: the effect run
    on a new [postId] only empties the queue. *)
Theorem retry_count_resets :
  (forall s i s',
      isMounted s = true -> step (ApiSettles i Fulfilled) s = Some s' ->
      retryCount s' = 0%nat)
  /\ (forall s p dc,
        retryCount (render p dc s) = retryCount s
        /\ saveQueue (render p dc s) = []).
Proof.
  split.
  - intros s i s' Hm Hstep. simpl in Hstep.
    destruct (running s !! i) as [[d p c|k p c]|]; try discriminate.
    injection Hstep as <-. rewrite finally_retryCount.
    unfold on_fulfilled. simpl. by rewrite Hm.
  - intros s p dc. unfold render, trigger. simpl. split; [|done].
    destruct (content_truthy dc && truthy p); [|done].
    by destruct (saveContent_retryCount p dc (with_postId p s)) as (-> & _).
Qed.

(** A save of post a that succeeds at once. *)
Lemma retry_count_resets_witness :
  isMounted (trigger (draft post_a "v1") (render post_a None blank)) = true
  /\ option_map retryCount
       (step (ApiSettles 0 Fulfilled)
             (trigger (draft post_a "v1") (render post_a None blank)))
     = Some 0%nat.
Proof.
  split; [reflexivity|].
  destruct (step (ApiSettles 0 Fulfilled)
              (trigger (draft post_a "v1") (render post_a None blank)))
    as [s'|] eqn:E.
  - simpl. f_equal.
    apply (proj1 retry_count_resets
             (trigger (draft post_a "v1") (render post_a None blank)) 0%nat s');
      [reflexivity | exact E].
  - vm_compute in E. discriminate.
Defined.

(** C7 — the count survives a document switch: after one failed save of
    post a the count is 1, and switching to post b leaves it at 1.  And
    when the component unmounts before the retry succeeds, that success
    leaves it at 1 as well. *)
Lemma retry_count_survives_switch :
  (exists s, steps one_failure_trace blank = Some s
             /\ postId s = post_a /\ retryCount s = 1%nat
             /\ retryCount (render post_b (draft post_a "v1") s) = 1%nat)
  /\ (exists s, steps unmounted_success_trace blank = Some s
               /\ length (api_log s) = 2%nat /\ running s = []
               /\ retryCount s = 1%nat).
Proof.
  split; eexists; (split; [vm_compute; reflexivity|]); repeat split.
Qed.




(** ** Scenarios *)


Lemma steps_cons e evs s s1 :
  step e s = Some s1 -> steps (e :: evs) s = steps evs s1.
Proof. intros H. simpl. by rewrite H. Qed.

(** Run the first event of [steps (e :: evs) s] on a state given field by
    field; [tac] rewrites the tests that do not compute. *)
Ltac unfold_handlers :=
  cbv [step trigger render saveContent finally on_fulfilled on_rejected
       issue_call backoffDelay
       postId status error lastSaved retryCount isMounted saveQueue isSaving
       clock timers running api_log with_postId with_status with_error
       with_lastSaved with_retryCount with_isMounted with_saveQueue
       with_isSaving with_clock with_timers with_running with_api_log
       content_truthy andb orb negb lookup list_lookup delete list_delete
       last app fires_at timer_postId timer_content].

Ltac take_step tac :=
  match goal with
  | |- context [steps (?e :: ?evs) ?s] =>
      let H := fresh "Hstep" in
      eassert (H : step e s = Some _)
        by (repeat (unfold_handlers; tac); reflexivity);
      rewrite (steps_cons e evs s _ H); clear H
  end.



(** ** Running against a scripted server *)

Lemma run_S srv n s t e s' :
  soonest (agenda srv s) = Some (t, e) ->
  steps [AdvanceTo t; e] s = Some s' ->
  run srv (S n) s = run srv n s'.
Proof. intros Ha Hs. simpl run. rewrite Ha. simpl in Hs |- *. by rewrite Hs. Qed.

Lemma run_quiescent srv n s : quiescent s -> run srv n s = s.
Proof.
  intros [Ht Hr]. destruct n as [|n]; [done|]. simpl.
  unfold agenda. by rewrite Ht, Hr.
Qed.

Lemma steps_app evs1 evs2 s s1 :
  steps evs1 s = Some s1 -> steps (evs1 ++ evs2) s = steps evs2 s1.
Proof.
  revert s. induction evs1 as [|e evs1 IH]; intros s H; simpl in H |- *.
  - by injection H as ->.
  - destruct (step e s) as [s'|]; [by apply IH | discriminate].
Qed.

(** The scripted run only takes turns of the event loop. *)
Lemma run_reachable srv n s : reachable s -> reachable (run srv n s).
Proof.
  revert s. induction n as [|n IH]; intros s Hr; [exact Hr|].
  cbn [run]. destruct (soonest (agenda srv s)) as [[t e]|]; [|exact Hr].
  destruct (steps [AdvanceTo t; e] s) as [s'|] eqn:Hs; [|exact Hr].
  apply IH. destruct Hr as [evs Hevs]. exists (evs ++ [AdvanceTo t; e]).
  by rewrite (steps_app _ _ _ _ Hevs).
Qed.

Lemma due_reached (now due : Z) : (due <=? Z.max now due) = true.
Proof. apply Z.leb_le. lia. Qed.

(** One failed attempt with retries left: the call is rejected, the retry
    timer runs 1000 ms later, [saveContent] then waits
    [2 ^ retryCount * 1000] ms more and calls again. *)
Lemma failed_attempt_cycle srv n pid st err ls r t log p c d :
  truthy p = true -> postId_mismatch p c = false ->
  (r < maxRetries)%nat ->
  snd (srv (length log)) = Rejected d ->
  run srv (3 + n) (awaiting_call pid st err ls r t log p c)
  = run srv n
      (awaiting_call pid Saving VNull ls (S r)
         (t + Z.max 0 (fst (srv (length log))) + 1000
          + 2 ^ Z.of_nat (S r) * 1000)
         (log ++ [ApiCall t p (contentForAPI c) c]) p c).
Proof.
  intros Hp Hm Hr Hsrv. apply Nat.ltb_lt in Hr.
  set (t1 := t + Z.max 0 (fst (srv (length log)))).
  change (3 + n)%nat with (S (S (S n))).
  (* the call settles *)
  erewrite run_S; cycle 1.
  { unfold agenda, awaiting_call. cbn [running timers api_log imap omap].
    unfold activation_event. cbn [api_log].
    rewrite list_lookup_middle by reflexivity. cbn. rewrite Hsrv. reflexivity. }
  { unfold awaiting_call.
    take_step idtac. take_step ltac:(rewrite ?Hr). reflexivity. }
  replace (Z.max t (t + Z.max 0 (fst (srv (length log))))) with t1 by lia.
  (* the retry timer fires *)
  erewrite run_S; cycle 1.
  { unfold agenda. cbn. reflexivity. }
  { take_step idtac.
    take_step ltac:(rewrite ?due_reached, ?Hp, ?Hm;
                     change (0 <? S r)%nat with true). reflexivity. }
  replace (Z.max t1 (t1 + 1000)) with (t1 + 1000) by lia.
  (* the backoff wait ends *)
  erewrite run_S; cycle 1.
  { unfold agenda. cbn [running timers imap omap activation_event app].
    reflexivity. }
  { take_step idtac.
    take_step ltac:(rewrite ?due_reached). reflexivity. }
  unfold awaiting_call. f_equal. cbn [app]. 
  replace (Z.max (t1 + 1000) (t1 + 1000 + 2 ^ Z.of_nat (S r) * 1000))
    with (t1 + 1000 + 2 ^ Z.of_nat (S r) * 1000) by lia.
  reflexivity.
Qed.



(** A fulfilled call ends the cycle. *)
Lemma attempt_succeeds srv n pid st err ls r t log p c :
  truthy p = true ->
  snd (srv (length log)) = Fulfilled ->
  run srv (1 + n) (awaiting_call pid st err ls r t log p c)
  = Hook pid Saved err (Some (t + Z.max 0 (fst (srv (length log))))) 0%nat
         true [] false (t + Z.max 0 (fst (srv (length log)))) [] []
         (log ++ [ApiCall t p (contentForAPI c) c]).
Proof.
  intros Hp Hsrv. change (1 + n)%nat with (S n).
  erewrite run_S; cycle 1.
  { unfold agenda, awaiting_call. cbn [running timers api_log imap omap].
    unfold activation_event. cbn [api_log].
    rewrite list_lookup_middle by reflexivity. cbn. rewrite Hsrv. reflexivity. }
  { unfold awaiting_call. take_step idtac. take_step idtac. reflexivity. }
  rewrite run_quiescent by (split; reflexivity).
  replace (Z.max t (t + Z.max 0 (fst (srv (length log)))))
    with (t + Z.max 0 (fst (srv (length log)))) by lia.
  reflexivity.
Qed.

(** An idle, mounted hook with a zero retry count starts a submitted
    request by calling the server at once. *)
Lemma trigger_first_attempt s (o : obj) :
  truthy (postId s) = true -> isSaving s = false -> isMounted s = true ->
  retryCount s = 0%nat -> quiescent s -> saveQueue s = [] ->
  postId_mismatch (postId s) (Some o) = false ->
  trigger (Some o) s
  = awaiting_call (postId s) Saving VNull (lastSaved s) 0 (clock s)
      (api_log s) (postId s) (Some o).
Proof.
  intros Hp Hs Hmnt Hrc [Htm Hrun] Hq Hm.
  destruct s as [p st err ls rc mnt q sv clk tms run log].
  simpl in Hp, Hs, Hmnt, Hrc, Htm, Hrun, Hq, Hm. subst.
  unfold trigger, saveContent, issue_call, awaiting_call. simpl.
  rewrite Hp, Hm. reflexivity.
Qed.



(** Two rejections, then a fulfilled call, whatever the latencies: three
    calls, the second [1000 + 2000] ms after the first rejection and the
    third [1000 + 4000] ms after the second. *)
Lemma two_failures_then_success srv n s (o : obj) d0 d1 :
  let k := length (api_log s) in
  snd (srv k) = Rejected d0 ->
  snd (srv (S k)) = Rejected d1 ->
  snd (srv (S (S k))) = Fulfilled ->
  truthy (postId s) = true -> isSaving s = false -> isMounted s = true ->
  retryCount s = 0%nat -> quiescent s -> saveQueue s = [] ->
  postId_mismatch (postId s) (Some o) = false ->
  let failed1 := clock s + Z.max 0 (fst (srv k)) in
  let failed2 := failed1 + 3000 + Z.max 0 (fst (srv (S k))) in
  let s' := run srv (7 + n) (trigger (Some o) s) in
  map at_time (api_log s')
  = map at_time (api_log s) ++ [clock s; failed1 + 3000; failed2 + 5000]
  /\ status s' = Saved /\ retryCount s' = 0%nat /\ quiescent s'.
Proof.
  intros k H0 H1 H2 Hp Hs Hmnt Hrc Hquiet Hq Hm failed1 failed2 s'.
  subst s' failed2 failed1.
  change (7 + n)%nat with (3 + (3 + (1 + n)))%nat.
  rewrite trigger_first_attempt by assumption.
  assert (Hlen : forall (l : list api_call) x, length (l ++ [x]) = S (length l)).
  { intros l x. rewrite length_app. simpl. lia. }
  rewrite (failed_attempt_cycle srv _ _ _ _ _ 0 _ _ _ _ d0 Hp Hm)
    by (unfold maxRetries; lia || exact H0).
  rewrite (failed_attempt_cycle srv _ _ _ _ _ 1 _ _ _ _ d1 Hp Hm)
    by (unfold maxRetries; lia || (rewrite Hlen; exact H1)).
  rewrite (attempt_succeeds srv _ _ _ _ _ _ _ _ _ _ Hp)
    by (rewrite !Hlen; exact H2).
  unfold quiescent. cbn [api_log status retryCount timers running].
  rewrite !map_app, <- !app_assoc, !Hlen. cbn [map app at_time].
  fold k. change (2 ^ Z.of_nat 1 * 1000) with 2000.
  change (2 ^ Z.of_nat 2 * 1000) with 4000.
  repeat split. f_equal. f_equal. f_equal; [lia|]. f_equal. lia.
Qed.

(** C5 — Retry schedule for a call that is rejected twice and then
    fulfilled, answered at once: three attempts, final status [saved]; but
    the second attempt starts 3000 ms after the first failure and the third
    5000 ms after the second, not 1000 ms and 2000 ms. *)
Theorem retry_delays_are_3s_then_5s :
  let s := run flaky 7 (trigger (draft post_a "v1") (render post_a None blank)) in
  map at_time (api_log s) = [0; 3000; 8000]
  /\ map origin (api_log s) = replicate 3 (draft post_a "v1")
  /\ status s = Saved /\ retryCount s = 0%nat /\ quiescent s.
Proof.
  cbv zeta. unfold quiescent.
  split; [|split; [|split; [|split; [|split]]]]; vm_compute; reflexivity.
Qed.

End AutoSaveSpec.

(** * Properties of [throttle] *)

Module ThrottleSpec.
Import Throttle.
Section Proofs.

Context {A : Type}.
Implicit Types (s : tstate A) (a : A) (t T limit gap : Z).

Lemma spaced_snoc gap (log : list (Z * A)) (x : Z * A) :
  spaced gap log ->
  match last log with Some y => fst y + gap <= fst x | None => True end ->
  spaced gap (log ++ [x]).
Proof.
  induction log as [|y log IH]; intros Hs Hl; [simpl; auto|].
  destruct Hs as [Hy Hs]. destruct log as [|z log].
  - simpl in *. auto.
  - rewrite last_cons_cons in Hl. specialize (IH Hs Hl).
    simpl in *. auto.
Qed.

Lemma spaced_weaken gap gap' (log : list (Z * A)) :
  gap' <= gap -> spaced gap log -> spaced gap' log.
Proof.
  intros Hle. induction log as [|x log IH]; [done|].
  intros [Hx Hs]. split; [|by apply IH].
  destruct log as [|y log]; [done | lia].
Qed.

Lemma consistent_create limit t0 : consistent limit (create (A := A) t0).
Proof. unfold consistent. simpl. auto. Qed.

Lemma elapse_consistent limit T s :
  consistent limit s -> consistent limit (elapse T s).
Proof.
  intros [Hsp Hl]. split; [exact Hsp|]. simpl.
  destruct (last (executions s)) as [x|].
  - destruct Hl as [(Hf & Hr)|(Hf & Hr & Hc)].
    + rewrite Hr, Hf. simpl. rewrite filter_cons, filter_nil.
      destruct (Z.leb_spec (fst x + Z.max 0 limit) T) as [Hle|Hlt]; simpl.
      * right. destruct (decide (T < fst x + Z.max 0 limit)); [lia|].
        repeat split; auto. lia.
      * left. destruct (decide (T < fst x + Z.max 0 limit)); [|lia]. auto.
    + rewrite Hr, Hf. simpl. right. repeat split; auto. lia.
  - destruct Hl as [Hf Hr]. rewrite Hr, Hf. simpl. auto.
Qed.

Lemma throttled_consistent limit a s :
  consistent limit s -> consistent limit (throttled limit a s).
Proof.
  intros Hcons. pose proof Hcons as [Hsp Hl]. unfold throttled.
  destruct (inThrottle s) eqn:Hf; [exact Hcons|].
  split; simpl.
  - apply spaced_snoc; [exact Hsp|].
    destruct (last (executions s)) as [x|]; [|done].
    destruct Hl as [(Hf' & _)|(_ & _ & Hc)]; [congruence | exact Hc].
  - rewrite last_snoc. left. split; [done|].
    destruct (last (executions s)) as [x|].
    + destruct Hl as [(Hf' & _)|(_ & -> & _)]; [congruence | done].
    + destruct Hl as [_ ->]. done.
Qed.

Lemma calls_at_consistent limit (calls : list (Z * A)) s :
  consistent limit s -> consistent limit (calls_at limit calls s).
Proof.
  revert s. induction calls as [|c calls IH]; intros s Hc; [exact Hc|].
  apply IH. by apply throttled_consistent, elapse_consistent.
Qed.

(** X1 — [throttle]: however the throttled function is called, consecutive
    executions of [func] are at least [limit] apart. *)
Theorem throttle_spacing limit (calls : list (Z * A)) t0 :
  spaced limit (executions (calls_at limit calls (create t0))).
Proof.
  apply (spaced_weaken (Z.max 0 limit)); [lia|].
  apply (calls_at_consistent limit calls _ (consistent_create limit t0)).
Qed.

Lemma dropped_while_throttled limit (calls : list (Z * A)) :
  forall s due,
    inThrottle s = true -> resets s = [due] ->
    Forall (fun c => fst c < due) calls ->
    executions (calls_at limit calls s) = executions s
    /\ inThrottle (calls_at limit calls s) = true
    /\ resets (calls_at limit calls s) = [due].
Proof.
  induction calls as [|[t a] calls IH]; intros s due Hf Hr Hlt; [by simpl|].
  apply Forall_cons in Hlt as [Ht Hlt]. simpl in Ht.
  assert (He : inThrottle (elapse t s) = true /\ resets (elapse t s) = [due]
               /\ executions (elapse t s) = executions s).
  { simpl. rewrite Hr, Hf. simpl. rewrite filter_cons, filter_nil.
    destruct (Z.leb_spec due t); [lia|].
    destruct (decide (t < due)); [auto | lia]. }
  destruct He as (Hf1 & Hr1 & Hx1).
  change (calls_at limit ((t, a) :: calls) s)
    with (calls_at limit calls (throttled limit a (elapse t s))).
  unfold throttled. rewrite Hf1.
  destruct (IH (elapse t s) due Hf1 Hr1 Hlt) as (H1 & H2 & H3).
  rewrite H1, Hx1. auto.
Qed.

(** X2 — [throttle]: of a run of calls that all fall within [limit] of the
    first, starting with the window open, only the first is executed, at
    once; the others are dropped for good, however long one waits. *)
Theorem throttle_keeps_first limit (c1 : Z * A) (rest : list (Z * A)) s T :
  inThrottle s = false -> resets s = [] ->
  clock s <= fst c1 ->
  Forall (fun c => fst c < fst c1 + limit) rest ->
  executions (elapse T (calls_at limit (c1 :: rest) s))
  = executions s ++ [c1].
Proof.
  intros Hf Hr Hclk Hlt. destruct c1 as [t1 a1]. simpl in Hclk, Hlt.
  change (calls_at limit ((t1, a1) :: rest) s)
    with (calls_at limit rest (throttled limit a1 (elapse t1 s))).
  assert (He : throttled limit a1 (elapse t1 s)
               = TState t1 true [t1 + Z.max 0 limit]
                        (executions s ++ [(t1, a1)])).
  { unfold throttled, elapse. rewrite Hr, Hf. simpl.
    replace (Z.max (clock s) t1) with t1 by lia. reflexivity. }
  rewrite He.
  destruct (dropped_while_throttled limit rest
              (TState t1 true [t1 + Z.max 0 limit] (executions s ++ [(t1, a1)]))
              (t1 + Z.max 0 limit) eq_refl eq_refl) as (Hx & _ & _).
  { eapply Forall_impl; [exact Hlt|]. simpl. intros; lia. }
  simpl. exact Hx.
Qed.

(** X3 — [throttle]: after any calls, a further call is executed exactly
    when at least [limit] has passed since the last execution (or there was
    none); otherwise it changes nothing. *)
Theorem throttle_window limit (calls : list (Z * A)) t0 t a :
  let s := calls_at limit calls (create t0) in
  clock s <= t ->
  throttled limit a (elapse t s)
  = if window_over limit (executions s) t
    then TState t true [t + Z.max 0 limit] (executions s ++ [(t, a)])
    else elapse t s.
Proof.
  intros s Hclk.
  pose proof (calls_at_consistent limit calls _ (consistent_create limit t0))
    as [_ Hl]. fold s in Hl.
  unfold window_over, throttled, elapse.
  destruct (last (executions s)) as [x|].
  - destruct Hl as [(Hf & Hr)|(Hf & Hr & Hc)]; rewrite Hr, Hf; simpl.
    + rewrite filter_cons, filter_nil.
      destruct (Z.leb_spec (fst x + Z.max 0 limit) t) as [Hle|Hlt]; simpl.
      * destruct (decide (t < fst x + Z.max 0 limit)); [lia|].
        replace (Z.max (clock s) t) with t by lia. reflexivity.
      * reflexivity.
    + destruct (Z.leb_spec (fst x + Z.max 0 limit) t) as [Hle|Hlt]; [|lia].
      replace (Z.max (clock s) t) with t by lia. reflexivity.
  - destruct Hl as [Hf Hr]. rewrite Hr, Hf. simpl.
    replace (Z.max (clock s) t) with t by lia. reflexivity.
Qed.

End Proofs.

(** [f("a")] at 0 ms, [f("b")] at 10 ms, [f("c")] at 999 ms, [limit = 1000]. *)
Lemma throttle_keeps_first_witness :
  executions (elapse 5000 (calls_at 1000 [(0, "a"); (10, "b"); (999, "c")]
                             (create 0)))
  = [(0, "a"%string)].
Proof.
  apply (throttle_keeps_first 1000 (0, "a"%string) [(10, "b"); (999, "c")]%string
           (create 0) 5000).
  - reflexivity.
  - reflexivity.
  - simpl. lia.
  - repeat constructor; simpl; lia.
Defined.

(** [f("a")] at 0 ms and then [f("b")] at 1000 ms, [limit = 1000]. *)
Lemma throttle_window_witness :
  throttled 1000 "b"%string (elapse 1000 (calls_at 1000 [(0, "a"%string)] (create 0)))
  = TState 1000 true [2000] [(0, "a"%string); (1000, "b"%string)].
Proof.
  apply (throttle_window 1000 [(0, "a"%string)] 0 1000 "b"%string).
  simpl. lia.
Defined.

End ThrottleSpec.

(** * Properties of [debounceAdvanced] *)

Module DebounceAdvancedSpec.
Import DebounceAdvanced.
Section Proofs.

Context {A : Type}.
Implicit Types (s : astate A) (sd : Debounce.dstate A) (a : A) (o : options)
  (t T wait : Z).

Lemma earliest_forget (l : list (timer A)) :
  Debounce.earliest (map forget l) = option_map forget (earliest l).
Proof.
  induction l as [|tm l IH]; [done|]. simpl. rewrite IH.
  destruct (earliest l) as [tm'|]; simpl; [|done].
  by destruct (due tm' <? due tm).
Qed.

Lemma filter_forget id (l : list (timer A)) :
  map forget (filter (fun x => tid x ≠ id) l)
  = filter (fun x => Debounce.tid x ≠ id) (map forget l).
Proof.
  induction l as [|tm l IH]; [done|]. simpl. rewrite !filter_cons. simpl.
  destruct (decide (tid tm ≠ id)); simpl; by rewrite IH.
Qed.

Lemma fire_in_step tm s sd :
  in_step s sd -> in_step (fire tm s) (Debounce.fire (forget tm) sd).
Proof.
  intros (Hc & Hi & Hp & Hn & Hx). unfold in_step. simpl.
  rewrite filter_forget, Hp, Hc, Hn, map_app, Hx. auto.
Qed.

Lemma run_timers_in_step fuel T :
  forall s sd, in_step s sd ->
    in_step (run_timers fuel T s) (Debounce.run_timers fuel T sd).
Proof.
  induction fuel as [|n IH]; intros s sd Hs; [exact Hs|]. simpl.
  pose proof Hs as (_ & _ & Hp & _). rewrite <- Hp, earliest_forget.
  destruct (earliest (pending s)) as [tm|]; simpl; [|exact Hs].
  destruct (due tm <=? T); [|exact Hs]. apply IH. by apply fire_in_step.
Qed.

Lemma elapse_in_step T s sd :
  in_step s sd -> in_step (elapse T s) (Debounce.elapse T sd).
Proof.
  intros Hs. pose proof Hs as (_ & _ & Hp & _).
  unfold elapse, Debounce.elapse.
  assert (Hlen : length (Debounce.pending sd) = length (pending s))
    by (rewrite <- Hp; apply length_map).
  rewrite Hlen.
  destruct (run_timers_in_step (length (pending s)) T s sd Hs)
    as (Hc & Hi & Hp' & Hn & Hx).
  unfold in_step. simpl. rewrite Hc. auto.
Qed.

Lemma debounced_in_step wait a s sd :
  in_step s sd ->
  in_step (debounced defaults wait a s) (Debounce.debounced wait a sd).
Proof.
  intros (Hc & Hi & Hp & Hn & Hx). unfold debounced, Debounce.debounced.
  simpl. rewrite <- Hi. destruct (timeoutId s) as [id|]; unfold in_step; simpl.
  - rewrite map_app, filter_forget, Hp, Hc, Hn. simpl. auto.
  - rewrite map_app, Hp, Hc, Hn. simpl. auto.
Qed.

Lemma cancel_in_step s sd :
  in_step s sd -> in_step (cancel s) (Debounce.cancel sd).
Proof.
  intros Hs. pose proof Hs as (Hc & Hi & Hp & Hn & Hx).
  unfold cancel, Debounce.cancel.
  rewrite <- Hi. destruct (timeoutId s) as [id|]; [|exact Hs].
  unfold in_step. simpl. rewrite filter_forget, Hp. auto.
Qed.

Lemma script_in_step wait (ops : list (op A)) :
  forall s sd, in_step s sd ->
    in_step (script defaults wait ops s) (plain_script wait ops sd).
Proof.
  induction ops as [|x ops IH]; intros s sd Hs; [exact Hs|].
  apply IH. destruct x as [t a|t|T]; simpl.
  - by apply debounced_in_step, elapse_in_step.
  - by apply cancel_in_step, elapse_in_step.
  - by apply elapse_in_step.
Qed.

(** X4 — [debounceAdvanced] with its default options behaves as [debounce]:
    under any sequence of calls, cancellations and waits the two execute
    [func] with the same arguments in the same order, and keep the same
    timers pending. *)
Theorem advanced_defaults_refine_debounce wait (ops : list (op A)) t0 :
  in_step (script defaults wait ops (create t0))
          (plain_script wait ops (Debounce.create t0)).
Proof. apply script_in_step. unfold in_step. simpl. auto. Qed.

(** X5 — [debounceAdvanced] with [leading] and [trailing] both set: a call
    made more than [wait] after the last executed call, with nothing
    pending, runs [func] twice with the same arguments, at once and again
    [wait] later. *)
Theorem leading_and_trailing_run_twice wait a s t T :
  timeoutId s = None -> pending s = [] ->
  clock s <= t -> 0 <= wait ->
  lastCallTime s + wait < t ->
  t + wait <= T ->
  executions (elapse T (debounced (Options true true) wait a (elapse t s)))
  = executions s ++ [(t, a); (t + wait, a)].
Proof.
  intros Hi Hp Hclk Hw Hlast HT.
  unfold elapse at 2. rewrite Hp. simpl.
  unfold debounced. simpl. rewrite Hi, Hp. simpl.
  replace (Z.max (clock s) t) with t by lia.
  destruct (Z.ltb_spec wait (t - lastCallTime s)) as [_|]; [|lia]. simpl.
  replace (Z.max 0 wait) with wait by lia.
  unfold elapse. simpl.
  destruct (Z.leb_spec (t + wait) T) as [_|]; [|lia]. simpl.
  replace (Z.max t (t + wait)) with (t + wait) by lia.
  by rewrite <- app_assoc.
Qed.

Lemma far_apart_snoc wait (log : list (Z * A)) (x : Z * A) :
  far_apart wait log ->
  match last log with Some y => fst y + wait < fst x | None => True end ->
  far_apart wait (log ++ [x]).
Proof.
  induction log as [|y log IH]; intros Hs Hl; [simpl; auto|].
  destruct Hs as [Hy Hs]. destruct log as [|z log].
  - simpl in *. auto.
  - rewrite last_cons_cons in Hl. specialize (IH Hs Hl).
    simpl in *. auto.
Qed.

Lemma elapse_untimed wait T s :
  untimed wait s ->
  untimed wait (elapse T s) /\ executions (elapse T s) = executions s
  /\ lastCallTime (elapse T s) = lastCallTime s.
Proof.
  intros (Hi & Hp & Hf & Hl). unfold elapse, untimed. rewrite Hp. simpl.
  rewrite Hi, Hp. auto.
Qed.

Lemma apply_op_untimed o wait s (x : op A) :
  trailing o = false -> untimed wait s ->
  untimed wait (apply_op o wait s x)
  /\ (leading o = false -> executions (apply_op o wait s x) = executions s).
Proof.
  intros Ho Hu.
  destruct x as [t a|t|T]; simpl.
  - destruct (elapse_untimed wait t s Hu) as ((Hi & Hp & Hf & Hl) & Hx & Hlc).
    generalize dependent (elapse t s). intros s1 Hi Hp Hf Hl Hx Hlc.
    unfold debounced. rewrite Ho, Hi.
    destruct (leading o && (wait <? clock s1 - lastCallTime s1)) eqn:Hlead.
    + apply andb_true_iff in Hlead as [Hlo Hlt]. apply Z.ltb_lt in Hlt.
      split; [|intros; congruence].
      unfold untimed, execute. simpl. rewrite last_snoc.
      repeat split; auto.
      apply far_apart_snoc; [exact Hf|].
      destruct (last (executions s1)) as [y|]; simpl; [lia | exact I].
    + split; [by repeat split | intros _; exact Hx].
  - destruct (elapse_untimed wait t s Hu) as ((Hi & Hp & Hf & Hl) & Hx & Hlc).
    unfold cancel. rewrite Hi. split; [by repeat split | intros _; exact Hx].
  - destruct (elapse_untimed wait T s Hu) as (Hu' & Hx & _). auto.
Qed.

Lemma script_untimed o wait (ops : list (op A)) :
  trailing o = false ->
  forall s, untimed wait s ->
    untimed wait (script o wait ops s)
    /\ (leading o = false -> executions (script o wait ops s) = executions s).
Proof.
  intros Ho. induction ops as [|x ops IH]; intros s Hu; [by split|].
  destruct (apply_op_untimed o wait s x Ho Hu) as [Hu1 Hx1].
  destruct (IH _ Hu1) as [Hu2 Hx2]. split; [exact Hu2|].
  intros Hl. simpl. rewrite (Hx2 Hl). by apply Hx1.
Qed.

(** X6 — [debounceAdvanced] with [trailing] off: under any sequence of
    calls, cancellations and waits no timer is ever pending and consecutive
    executions of [func] are more than [wait] apart; with [leading] off as
    well, [func] is never executed. *)
Theorem without_trailing_nothing_is_deferred o wait (ops : list (op A)) t0 :
  trailing o = false ->
  let s := script o wait ops (create t0) in
  pending s = []
  /\ far_apart wait (executions s)
  /\ (leading o = false -> executions s = []).
Proof.
  intros Ho s.
  destruct (script_untimed o wait ops Ho (create t0)) as [(_ & Hp & Hf & _) Hx].
  { unfold untimed. simpl. auto. }
  auto.
Qed.

End Proofs.

(** [f("a")] at 5000 ms, first call ever, [wait = 2000]. *)
Lemma leading_and_trailing_run_twice_witness :
  executions (elapse 7000 (debounced (Options true true) 2000 "a"%string
                             (elapse 5000 (create 0))))
  = [(5000, "a"%string); (7000, "a"%string)].
Proof.
  apply (leading_and_trailing_run_twice 2000 "a"%string (create 0) 5000 7000).
  - reflexivity.
  - reflexivity.
  - simpl. lia.
  - lia.
  - simpl. lia.
  - lia.
Defined.

(** [f("a")] at 5000 ms and [f("b")] at 5500 ms with [{ leading: true,
    trailing: false }] and [wait = 2000]: only ["a"] runs. *)
Lemma without_trailing_witness :
  pending (script (Options true false) 2000
             [Call 5000 "a"%string; Call 5500 "b"%string] (create 0))
  = [].
Proof.
  apply (without_trailing_nothing_is_deferred (Options true false) 2000
           [Call 5000 "a"%string; Call 5500 "b"%string] 0).
  reflexivity.
Defined.

End DebounceAdvancedSpec.

(** * More properties of [useAutoSave] *)

Module AutoSaveViewSpec.
Import JS AutoSave AutoSaveSpec AutoSaveView.

Implicit Types (s : hook) (p : val) (c : content) (e : event).

Lemma backoff_within_policy (r : nat) :
  (r <= maxRetries)%nat ->
  1000 <= 2 ^ Z.of_nat r * 1000 <= longest_backoff.
Proof.
  unfold maxRetries, longest_backoff. intros Hr.
  assert (Hc : r = 0%nat \/ r = 1%nat \/ r = 2%nat \/ r = 3%nat) by lia.
  destruct Hc as [-> | [-> | [-> | ->]]]; vm_compute; split; discriminate.
Qed.

Lemma or_else_default_truthy d :
  truthy (or_else d (VStr "Failed to save")) = true.
Proof. unfold or_else. by destruct (truthy d) eqn:E. Qed.

Lemma steady_split s :
  steady s <->
  steady_but_retrying s
  /\ (isMounted s = true -> status s = Retrying -> timers s ≠ []).
Proof. unfold steady, steady_but_retrying. tauto. Qed.

Lemma saveContent_steady p c s :
  steady_but_retrying s ->
  (isMounted s = true -> status s = Retrying -> timers s ≠ [])
  \/ (isSaving s = false -> accepted p c) ->
  steady (saveContent p c s).
Proof.
  intros Hs Hr. apply steady_split.
  destruct Hs as (H1 & H2 & H3 & H4 & H5 & H6 & H7 & H8 & H9).
  unfold saveContent.
  destruct (truthy p) eqn:Hp; simpl.
  - destruct (isSaving s) eqn:Hsv.
    + split; [unfold steady_but_retrying; simpl; rewrite Hsv; tauto|].
      simpl. intros _ Hst. rewrite (H1 eq_refl) in Hst. discriminate.
    + destruct (postId_mismatch p c) eqn:Hm.
      * split; [unfold steady_but_retrying; rewrite Hsv; tauto|].
        destruct Hr as [Hr|Hr]; [exact Hr|].
        destruct (Hr eq_refl) as [_ Hm']. congruence.
      * destruct (backoff_within_policy (retryCount s) H7) as [Hlo Hhi].
        destruct (0 <? retryCount s)%nat; unfold issue_call; simpl;
          (split; [|simpl; discriminate]);
          unfold steady_but_retrying; simpl;
          repeat split; auto; try discriminate;
          apply Forall_app; split; auto;
          constructor; [|constructor]; unfold backoffDelay; simpl; lia || exact I.
  - destruct Hr as [Hr|Hr].
    + split; [unfold steady_but_retrying; simpl; tauto | exact Hr].
    + split; [unfold steady_but_retrying; simpl; tauto|].
      simpl. intros Hmnt Hst.
      destruct (isSaving s) eqn:Hsv.
      * rewrite (H1 eq_refl) in Hst. discriminate.
      * destruct (Hr eq_refl) as [Hp' _]. congruence.
Qed.

Lemma finally_steady p s :
  steady_but_retrying (with_isSaving false s) ->
  (isMounted s = true -> status s = Retrying -> timers s ≠ []) ->
  steady (finally p s).
Proof.
  intros Hs Hr. unfold finally. simpl.
  destruct (last (saveQueue s)) as [next|].
  - apply saveContent_steady; [|left; exact Hr].
    destruct Hs as (H1 & H2 & H3 & H4 & H5 & H6 & H7 & H8 & H9).
    unfold steady_but_retrying. simpl in *. repeat split; auto.
  - apply steady_split. split; [exact Hs | exact Hr].
Qed.

Lemma step_steady e s s' :
  coherent s -> steady s -> step e s = Some s' -> steady s'.
Proof.
  intros Hc Hst Hstep.
  pose proof Hst as (H1 & H2 & H3 & H4 & H5 & H6 & H7 & H8 & H9 & H10).
  pose proof (proj1 (steady_split s) Hst) as [Hsb _].
  destruct e as [p dc|c|c| |t|i|i|i r]; simpl in Hstep.
  - (* Render *)
    injection Hstep as <-. unfold render, trigger. simpl.
    assert (Hq : forall x, steady x -> steady (with_saveQueue [] x)) by (intros x Hx; exact Hx).
    apply Hq. destruct (content_truthy dc && truthy p).
    + apply saveContent_steady; [exact Hsb | left; exact H7].
    + exact Hst.
  - (* DebouncedContent *)
    injection Hstep as <-. unfold trigger.
    destruct (content_truthy c && truthy (postId s)); [|exact Hst].
    apply saveContent_steady; [exact Hsb | left; exact H7].
  - (* SaveNow *)
    injection Hstep as <-. unfold trigger.
    destruct (content_truthy c && truthy (postId s)); [|exact Hst].
    apply saveContent_steady; [exact Hsb | left; exact H7].
  - (* Unmount *)
    injection Hstep as <-. unfold steady. simpl.
    repeat split; auto; discriminate.
  - (* AdvanceTo *)
    injection Hstep as <-. unfold steady. simpl.
    repeat split; auto.
    + intros t0 Ht0. specialize (H5 t0 Ht0). lia.
    + eapply Forall_impl; [exact H9|]. intros [d ? ?|? ? ?]; simpl; [lia | auto].
    + eapply Forall_impl; [exact H10|]. simpl. intros; lia.
  - (* TimerFires *)
    destruct (timers s !! i) as [tm|] eqn:Hi; [|discriminate].
    destruct (fires_at tm <=? clock s); [|discriminate].
    injection Hstep as <-.
    apply saveContent_steady.
    + destruct Hsb as (B1 & B2 & B3 & B4 & B5 & B6 & B7 & B8 & B9).
      unfold steady_but_retrying. simpl. repeat split; auto.
      by apply Forall_delete.
    + right. intros _. destruct Hc as (_ & _ & Htm & _).
      eapply Forall_lookup_1 in Htm; eauto.
  - (* BackoffEnds *)
    destruct (running s !! i) as [[d p c|k p c]|] eqn:Hi; try discriminate.
    destruct (d <=? clock s); [|discriminate]. injection Hstep as <-.
    destruct Hc as (Hex & _).
    destruct Hex as [[Hs [a Ha]]|[Hs Hnil]]; [|rewrite Hnil in Hi; discriminate].
    rewrite Ha in Hi. apply singleton_lookup in Hi as [-> <-].
    unfold steady, issue_call. simpl. rewrite Ha. simpl.
    repeat split; auto.
  - (* ApiSettles *)
    destruct (settle_inv _ _ _ _ Hc Hstep) as (k & p & c & Ha & -> & [Hp _] & ->).
    assert (Hsv : isSaving s = true).
    { apply coherent_busy; [exact Hc|]. rewrite Ha. discriminate. }
    pose proof (H1 Hsv) as Hsaving.
    assert (Herr : error s = VNull) by (apply H3; rewrite Hsaving; discriminate).
    destruct r as [|d].
    + apply finally_steady.
      * unfold on_fulfilled, steady_but_retrying. simpl.
        destruct (isMounted s) eqn:Hm; simpl; rewrite ?Hsaving, ?Herr, ?Hm, ?Ha;
          repeat split; auto; try discriminate; try (unfold maxRetries; lia).
        intros t0 [= <-]. lia.
      * unfold on_fulfilled. simpl. destruct (isMounted s) eqn:Hm; simpl;
          rewrite ?Hm, ?Hsaving; discriminate.
    + apply finally_steady.
      * unfold on_rejected, steady_but_retrying. simpl.
        destruct (retryCount s <? maxRetries)%nat eqn:Hlt;
          [apply Nat.ltb_lt in Hlt|];
          destruct (isMounted s) eqn:Hm; simpl;
          rewrite ?Hsaving, ?Herr, ?Hm, ?Ha;
          repeat split; auto; try discriminate; try lia;
          try (unfold maxRetries; lia);
          try (intros _; apply or_else_default_truthy);
          try (intros Hne; exfalso; by apply Hne).
        apply Forall_app. split; [exact H10|]. constructor; [simpl; lia|constructor].
      * unfold on_rejected. simpl.
        destruct (retryCount s <? maxRetries)%nat; destruct (isMounted s) eqn:Hm;
          simpl; rewrite ?Hm, ?Hsaving; try discriminate.
        intros _ _ Habs. by apply app_eq_nil in Habs as [_ ?].
Qed.

Lemma reachable_steady s : reachable s -> steady s.
Proof.
  intros [evs Hevs].
  assert (H : forall evs s0 s1, coherent s0 -> steady s0 ->
                steps evs s0 = Some s1 -> steady s1).
  { clear. induction evs as [|e evs IH]; intros s0 s1 Hc Hs Hsteps.
    - simpl in Hsteps. by injection Hsteps as <-.
    - simpl in Hsteps. destruct (step e s0) as [s2|] eqn:He; [|discriminate].
      eapply IH; [| |exact Hsteps].
      + eapply step_coherent; eauto.
      + eapply step_steady; eauto. }
  eapply H; [apply coherent_blank | | exact Hevs].
  unfold steady. simpl. repeat split; auto; try discriminate.
  unfold maxRetries. lia.
Qed.

(** X7 — [useAutoSave]: what the status shown carries.  In every reachable
    state, status [error] comes with a truthy error value and every other
    status with [error = null]; status [saved] comes with a [lastSaved]
    time, which is never in the future. *)
Theorem status_carries_its_data s :
  reachable s ->
  (status s = Error -> truthy (error s) = true)
  /\ (status s ≠ Error -> error s = VNull)
  /\ (status s = Saved -> exists t, lastSaved s = Some t /\ t <= clock s).
Proof.
  intros Hr. destruct (reachable_steady s Hr) as (_ & H2 & H3 & H4 & H5 & _).
  repeat split; auto.
  intros Hs. destruct (lastSaved s) as [t|] eqn:E.
  - exists t. auto.
  - by destruct (H4 Hs).
Qed.

Lemma status_carries_its_data_witness :
  exists t, lastSaved (run flaky 7 (trigger (draft post_a "v1")
                                     (render post_a None blank))) = Some t
            /\ t <= 8000.
Proof.
  assert (Hr : reachable (run flaky 7 (trigger (draft post_a "v1")
                                         (render post_a None blank)))).
  { apply run_reachable.
    exists [Render post_a None; SaveNow (draft post_a "v1")]. reflexivity. }
  destruct (status_carries_its_data _ Hr) as (_ & _ & Hsaved).
  destruct Hsaved as (t & Ht & Hle); [vm_compute; reflexivity|].
  exists t. split; [exact Ht|]. vm_compute in Hle. exact Hle.
Defined.

(** X8 — [useAutoSave]: the [isSaving] it returns against what happens.
    In every reachable state a save in execution is shown: the status is
    [saving].  While the hook is mounted the converse holds as well: when
    [isSaving] is shown, an activation is suspended or a retry timer is
    pending. *)
Theorem shown_flag_tracks_saves s :
  reachable s ->
  (running s ≠ [] -> status s = Saving /\ shown_isSaving s = true)
  /\ (isMounted s = true -> shown_isSaving s = true ->
      running s ≠ [] \/ timers s ≠ []).
Proof.
  intros Hr. pose proof (reachable_coherent s Hr) as Hc.
  destruct (reachable_steady s Hr) as (H1 & _ & _ & _ & _ & H6 & H7 & _).
  split.
  - intros Hne. pose proof (H1 (coherent_busy s Hc Hne)) as Hs.
    unfold shown_isSaving. by rewrite Hs.
  - intros Hm Hshown. unfold shown_isSaving in Hshown.
    destruct (status s) eqn:Hs; try discriminate.
    + left. specialize (H6 Hm eq_refl).
      destruct Hc as ([[_ [a ->]]|[Hf _]] & _); [discriminate | congruence].
    + right. by apply H7.
Qed.

Lemma shown_flag_tracks_saves_witness :
  status (trigger (draft post_a "v1") (render post_a None blank)) = Saving.
Proof.
  assert (Hr : reachable (trigger (draft post_a "v1") (render post_a None blank))).
  { exists [Render post_a None; SaveNow (draft post_a "v1")]. reflexivity. }
  apply (proj1 (shown_flag_tracks_saves _ Hr)). discriminate.
Defined.

(** X9 — [useAutoSave]: the retry policy bounds every wait.  In every
    reachable state the retry count is at most [maxRetries], so the backoff
    delay lies between 1000 and 8000 ms; a suspended backoff wait ends at
    most 8000 ms from now and a retry timer fires at most 1000 ms from
    now. *)
Theorem waits_are_bounded s :
  reachable s ->
  (retryCount s <= maxRetries)%nat
  /\ 1000 <= backoffDelay s <= 8000
  /\ (forall d p c, Backoff d p c ∈ running s -> d <= clock s + 8000)
  /\ (forall tm, tm ∈ timers s -> fires_at tm <= clock s + 1000).
Proof.
  intros Hr.
  destruct (reachable_steady s Hr) as (_ & _ & _ & _ & _ & _ & _ & H8 & H9 & H10).
  split; [exact H8|]. split; [exact (backoff_within_policy _ H8)|]. split.
  - intros d p c Hin. rewrite Forall_forall in H9. exact (H9 _ Hin).
  - intros tm Hin. rewrite Forall_forall in H10. exact (H10 _ Hin).
Qed.

Lemma waits_are_bounded_witness :
  (retryCount (run flaky 1 (trigger (draft post_a "v1")
                              (render post_a None blank))) <= maxRetries)%nat.
Proof.
  apply waits_are_bounded. apply run_reachable.
  exists [Render post_a None; SaveNow (draft post_a "v1")]. reflexivity.
Defined.

(** X10 — [useAutoSave]: what reaches [postsAPI.update].  In every
    reachable state each call was made for a truthy [postId], and its body
    is the submitted content without the [postId] field: no [postId] key,
    every other key as submitted. *)
Theorem calls_carry_the_content s call :
  reachable s -> call ∈ api_log s ->
  truthy (target call) = true
  /\ body call !! "postId" = None
  /\ (forall k, k ≠ "postId" ->
        body call !! k = default ∅ (origin call) !! k).
Proof.
  intros Hr Hin. destruct (reachable_coherent s Hr) as (_ & _ & _ & Hlog & _).
  rewrite Forall_forall in Hlog. destruct (Hlog call Hin) as [[Hp _] ->].
  split; [exact Hp|]. unfold contentForAPI. split.
  - apply lookup_delete_eq.
  - intros k Hk. by apply lookup_delete_ne.
Qed.

Lemma calls_carry_the_content_witness :
  truthy post_a = true
  /\ contentForAPI (draft post_a "v1") !! "postId" = None
  /\ (forall k, k ≠ "postId" ->
        contentForAPI (draft post_a "v1") !! k
        = default ∅ (draft post_a "v1") !! k).
Proof.
  apply (calls_carry_the_content
           (trigger (draft post_a "v1") (render post_a None blank))
           (ApiCall 0 post_a (contentForAPI (draft post_a "v1"))
                    (draft post_a "v1"))).
  - exists [Render post_a None; SaveNow (draft post_a "v1")]. reflexivity.
  - vm_compute. left.
Defined.

(** X11 — [useAutoSave]: nothing is left waiting.  In every reachable state
    in which no save is in execution the queue is empty. *)
Theorem idle_hook_has_empty_queue s :
  reachable s -> isSaving s = false -> saveQueue s = [] /\ running s = [].
Proof.
  intros Hr Hs. destruct (coherent_idle s (reachable_coherent s Hr) Hs). auto.
Qed.

Lemma idle_hook_has_empty_queue_witness :
  saveQueue (run flaky 7 (trigger (draft post_a "v1")
                            (render post_a None blank))) = [].
Proof.
  apply idle_hook_has_empty_queue.
  - apply run_reachable.
    exists [Render post_a None; SaveNow (draft post_a "v1")]. reflexivity.
  - vm_compute. reflexivity.
Defined.

Lemma saveContent_keeps_results p c s :
  lastSaved (saveContent p c s) = lastSaved s
  /\ isMounted (saveContent p c s) = isMounted s
  /\ timers (saveContent p c s) = timers s.
Proof.
  unfold saveContent.
  destruct (negb (truthy p) || isSaving s); [by simpl|].
  destruct (postId_mismatch p c); [done|]. simpl.
  destruct (0 <? retryCount s)%nat; by simpl.
Qed.

Lemma finally_keeps_results p s :
  lastSaved (finally p s) = lastSaved s
  /\ isMounted (finally p s) = isMounted s
  /\ timers (finally p s) = timers s.
Proof.
  unfold finally.
  destruct (last (saveQueue (with_isSaving false s))) as [c|]; [|done].
  by destruct (saveContent_keeps_results p c
                 (with_saveQueue [] (with_isSaving false s))) as (-> & -> & ->).
Qed.

Lemma step_after_unmount e s s' :
  isMounted s = false -> step e s = Some s' ->
  isMounted s' = false /\ lastSaved s' = lastSaved s
  /\ timers s' `sublist_of` timers s.
Proof.
  intros Hm Hstep.
  destruct e as [p dc|c|c| |t|i|i|i r]; simpl in Hstep.
  - injection Hstep as <-. unfold render, trigger. simpl.
    destruct (content_truthy dc && truthy p); [|by simpl].
    by destruct (saveContent_keeps_results p dc (with_postId p s))
      as (-> & -> & ->).
  - injection Hstep as <-. unfold trigger.
    destruct (content_truthy c && truthy (postId s)); [|done].
    by destruct (saveContent_keeps_results (postId s) c s) as (-> & -> & ->).
  - injection Hstep as <-. unfold trigger.
    destruct (content_truthy c && truthy (postId s)); [|done].
    by destruct (saveContent_keeps_results (postId s) c s) as (-> & -> & ->).
  - by injection Hstep as <-.
  - by injection Hstep as <-.
  - destruct (timers s !! i) as [tm|]; [|discriminate].
    destruct (fires_at tm <=? clock s); [|discriminate]. injection Hstep as <-.
    destruct (saveContent_keeps_results (timer_postId tm) (timer_content tm)
                (with_timers (delete i (timers s)) s)) as (-> & -> & ->).
    simpl. repeat split; auto. apply sublist_delete.
  - destruct (running s !! i) as [[d p c|k p c]|]; try discriminate.
    destruct (d <=? clock s); [|discriminate]. by injection Hstep as <-.
  - destruct (running s !! i) as [[d p c|k p c]|]; try discriminate.
    injection Hstep as <-.
    match goal with |- context [finally p ?x] =>
      destruct (finally_keeps_results p x) as (-> & -> & ->) end.
    destruct r as [|d]; unfold on_fulfilled, on_rejected; simpl; rewrite Hm.
    + by simpl.
    + destruct (retryCount s <? maxRetries)%nat; by simpl.
Qed.

(** X12 — [useAutoSave] after unmount.  From the moment the component has
    unmounted, whatever happens, the hook stays unmounted, [lastSaved] no
    longer changes and no retry timer is added: the timers pending are
    among those that were pending at unmount. *)
Theorem unmounted_hook_schedules_nothing evs s s' :
  isMounted s = false -> steps evs s = Some s' ->
  isMounted s' = false /\ lastSaved s' = lastSaved s
  /\ timers s' `sublist_of` timers s.
Proof.
  revert s. induction evs as [|e evs IH]; intros s Hm Hsteps; simpl in Hsteps.
  - by injection Hsteps as <-.
  - destruct (step e s) as [s1|] eqn:He; [|discriminate].
    destruct (step_after_unmount e s s1 Hm He) as (Hm1 & Hl1 & Ht1).
    destruct (IH s1 Hm1 Hsteps) as (Hm2 & Hl2 & Ht2).
    split; [exact Hm2|]. split; [congruence|]. by etransitivity.
Qed.

(** The call for post a is rejected after the unmount. *)
Lemma unmounted_hook_schedules_nothing_witness :
  option_map timers
    (steps [ApiSettles 0 (Rejected VUndefined)]
       (with_isMounted false
          (trigger (draft post_a "v1") (render post_a None blank))))
  = Some [].
Proof.
  destruct (steps [ApiSettles 0 (Rejected VUndefined)]
              (with_isMounted false
                 (trigger (draft post_a "v1") (render post_a None blank))))
    as [s'|] eqn:E.
  - destruct (unmounted_hook_schedules_nothing
                [ApiSettles 0 (Rejected VUndefined)]
                (with_isMounted false
                   (trigger (draft post_a "v1") (render post_a None blank)))
                s' eq_refl E) as (_ & _ & Hsub).
    simpl in Hsub |- *. f_equal. by apply sublist_nil_r in Hsub.
  - vm_compute in E. discriminate.
Defined.

(** X13 — [useAutoSave]: the queue is drained by the closure whose save was
    in flight.  A request submitted while a call for [p] is awaited, and
    carrying an identity other than [p], is queued and then dropped when
    that call settles, whatever its outcome and whatever the hook's current
    [postId]: no call is made for it and it is held nowhere afterwards. *)
Theorem queued_request_is_judged_by_old_closure s k p c (o : obj) r :
  reachable s ->
  running s = [Awaiting k p c] ->
  truthy (postId s) = true ->
  truthy (get_postId (Some o)) = true ->
  get_postId (Some o) ≠ p ->
  exists s',
    steps [SaveNow (Some o); ApiSettles 0 r] s = Some s'
    /\ api_log s' = api_log s
    /\ running s' = [] /\ saveQueue s' = [] /\ isSaving s' = false
    /\ (forall tm, tm ∈ timers s' -> tm ∈ timers s \/ timer_content tm = c).
Proof.
  intros Hr Ha Hcur Ht Hne.
  pose proof (reachable_coherent s Hr) as Hc.
  assert (Hsv : isSaving s = true).
  { apply coherent_busy; [exact Hc|]. rewrite Ha. discriminate. }
  assert (Hp : truthy p = true).
  { destruct Hc as (_ & Hrun & _). rewrite Ha in Hrun.
    apply Forall_inv in Hrun. apply Hrun. }
  assert (Hm : postId_mismatch p (Some o) = true)
    by (by apply postId_mismatch_true).
  eexists. split.
  { cbn [steps step]. unfold trigger. simpl. rewrite Hcur.
    rewrite saveContent_queues by (rewrite Hsv; apply orb_true_r).
    simpl. rewrite Ha. simpl. reflexivity. }
  set (s2 := match r with
             | Fulfilled => on_fulfilled _
             | Rejected d => on_rejected p c d _
             end).
  assert (H2 : isSaving s2 = true /\ running s2 = []
               /\ api_log s2 = api_log s
               /\ saveQueue s2 = saveQueue s ++ [Some o]
               /\ (timers s2 = timers s
                   \/ exists t, timers s2 = timers s ++ [RetryTimer t p c])).
  { subst s2. destruct r as [|d].
    - match goal with |- context [on_fulfilled ?x] =>
        destruct (on_fulfilled_fields x) as (-> & -> & -> & -> & ->) end.
      simpl. auto 10.
    - match goal with |- context [on_rejected p c d ?x] =>
        destruct (on_rejected_fields p c d x) as (-> & -> & Htm & -> & ->) end.
      simpl. repeat split; auto. destruct Htm as [->| ->]; eauto. }
  destruct H2 as (Hs2 & Hr2 & Hl2 & Hq2 & Ht2). clearbody s2.
  unfold finally. simpl. rewrite Hq2, last_snoc.
  rewrite saveContent_drops by (simpl; auto).
  simpl. rewrite Hr2, Hl2. repeat split; auto.
  intros tm Hin. destruct Ht2 as [Ht2|[t Ht2]]; rewrite Ht2 in Hin; [by left|].
  apply elem_of_app in Hin as [Hin|Hin]; [by left|].
  apply list_elem_of_singleton in Hin as ->. by right.
Qed.

(** Post a is in flight, the page has switched to post b, and a draft of
    post b is submitted: it is never sent. *)
Lemma queued_request_is_judged_by_old_closure_witness :
  exists s s',
    steps switch_while_saving blank = Some s
    /\ postId s = post_b
    /\ steps [SaveNow (draft post_b "w1"); ApiSettles 0 Fulfilled] s = Some s'
    /\ api_log s' = api_log s.
Proof.
  assert (Hs : steps switch_while_saving blank
               = Some (render post_b (draft post_a "v1")
                         (trigger (draft post_a "v1")
                            (render post_a None blank))))
    by reflexivity.
  destruct (queued_request_is_judged_by_old_closure
              (render post_b (draft post_a "v1")
                 (trigger (draft post_a "v1") (render post_a None blank)))
              0 post_a (draft post_a "v1") (draft_obj post_b "w1") Fulfilled)
    as (s' & Hsteps & Hlog & _).
  - exists switch_while_saving. exact Hs.
  - reflexivity.
  - reflexivity.
  - reflexivity.
  - vm_compute. discriminate.
  - eexists _, s'. split; [exact Hs|]. split; [reflexivity|].
    split; [exact Hsteps | exact Hlog].
Defined.

(** ** The order of calls when a save fails while another is queued *)

Ltac unfold_turn :=
  cbv [step trigger render saveContent finally on_fulfilled on_rejected
       issue_call backoffDelay
       postId status error lastSaved retryCount isMounted saveQueue isSaving
       clock timers running api_log with_postId with_status with_error
       with_lastSaved with_retryCount with_isMounted with_saveQueue
       with_isSaving with_clock with_timers with_running with_api_log
       content_truthy andb orb negb lookup list_lookup delete list_delete
       last fires_at timer_postId timer_content];
  cbn [app].

Ltac take_turn tac :=
  match goal with
  | |- context [steps (?e :: ?evs) ?s] =>
      let H := fresh "Hstep" in
      eassert (H : step e s = Some _)
        by (repeat (unfold_turn; tac); reflexivity);
      rewrite (steps_cons e evs s _ H); clear H
  end.

Lemma length_snoc {A} (l : list A) (x : A) : length (l ++ [x]) = S (length l).
Proof. rewrite length_app. simpl. lia. Qed.

(** X14 — An idle mounted hook is handed content [R1] and then, while the
    call for [R1] is pending, content [R2].  If the server rejects the first
    call it receives and fulfils the next two, the hook calls the server
    three times, for [R1], [R2] and [R1] again: the retry of the rejected
    request is the last call, after the newer request.  The hook then rests
    with status [saved]. *)
Theorem retry_is_sent_after_newer_save (srv : oracle) (s : hook)
    (R1 R2 : obj) (d : val) (n : nat) :
  isMounted s = true -> isSaving s = false -> saveQueue s = [] ->
  retryCount s = 0%nat -> timers s = [] -> running s = [] ->
  truthy (postId s) = true ->
  postId_mismatch (postId s) (Some R1) = false ->
  postId_mismatch (postId s) (Some R2) = false ->
  snd (srv (length (api_log s))) = Rejected d ->
  snd (srv (S (length (api_log s)))) = Fulfilled ->
  snd (srv (S (S (length (api_log s))))) = Fulfilled ->
  let s' := run srv (5 + n) (trigger (Some R2) (trigger (Some R1) s)) in
  map origin (api_log s') = map origin (api_log s) ++ [Some R1; Some R2; Some R1]
  /\ status s' = Saved
  /\ quiescent s'.
Proof.
  destruct s as [p st err ls rc mt q sv clk tms rn log].
  cbn [isMounted isSaving saveQueue retryCount timers running postId api_log].
  intros -> -> -> -> -> -> Hp Hm1 Hm2 H0 H1 H2.
  assert (E : trigger (Some R2) (trigger (Some R1)
                (Hook p st err ls 0 true [] false clk [] [] log))
              = Hook p Saving VNull ls 0 true [Some R2] true clk []
                  [Awaiting (length log) p (Some R1)]
                  (log ++ [ApiCall clk p (contentForAPI (Some R1)) (Some R1)])).
  { repeat (unfold_turn; rewrite ?Hp, ?Hm1; cbn [Nat.ltb Nat.leb]). reflexivity. }
  rewrite E. clear E.
  change (5 + n)%nat with (S (S (S (S (S n))))).
  (* the call for R1 is rejected; R2 starts its backoff wait *)
  erewrite run_S; cycle 1.
  { unfold agenda. cbn [running timers api_log imap omap].
    unfold activation_event. cbn [api_log].
    rewrite list_lookup_middle by reflexivity. cbn. rewrite H0. reflexivity. }
  { take_turn idtac.
    take_turn ltac:(rewrite ?Hp, ?Hm2; cbn [Nat.ltb Nat.leb maxRetries]).
    reflexivity. }
  remember (Z.max clk (clk + Z.max 0 (fst (srv (length log))))) as t1 eqn:Ht1.
  change (2 ^ Z.of_nat 1 * 1000) with 2000.
  (* the retry timer of R1 fires first and R1 is queued *)
  erewrite run_S; cycle 1.
  { unfold agenda. cbn.
    destruct (Z.ltb_spec (t1 + 1000) (t1 + 2000)) as [_|]; [reflexivity | lia]. }
  { take_turn idtac. take_turn ltac:(rewrite ?due_reached, ?Hp). reflexivity. }
  replace (Z.max t1 (t1 + 1000)) with (t1 + 1000) by lia.
  (* the backoff wait of R2 ends *)
  erewrite run_S; cycle 1.
  { unfold agenda. cbn. reflexivity. }
  { take_turn idtac.
    take_turn ltac:(replace (t1 + 2000 <=? Z.max (t1 + 1000) (t1 + 2000))
                      with true by (symmetry; apply Z.leb_le; lia)).
    reflexivity. }
  replace (Z.max (t1 + 1000) (t1 + 2000)) with (t1 + 2000) by lia.
  (* the call for R2 is fulfilled; the queued retry of R1 is sent *)
  erewrite run_S; cycle 1.
  { unfold agenda. cbn [running timers api_log imap omap].
    unfold activation_event. cbn [api_log].
    rewrite list_lookup_middle by reflexivity. cbn.
    rewrite length_snoc, H1. reflexivity. }
  { take_turn idtac.
    take_turn ltac:(rewrite ?Hp, ?Hm1; cbn [Nat.ltb Nat.leb maxRetries]).
    reflexivity. }
  (* the call for R1 is fulfilled *)
  erewrite run_S; cycle 1.
  { unfold agenda. cbn [running timers api_log imap omap].
    unfold activation_event. cbn [api_log].
    rewrite list_lookup_middle by reflexivity. cbn.
    rewrite !length_snoc, H2. reflexivity. }
  { take_turn idtac. take_turn idtac. reflexivity. }
  rewrite run_quiescent by (split; reflexivity).
  cbn [api_log status]. split; [|split; [reflexivity | split; reflexivity]].
  rewrite !map_app, <- !app_assoc. reflexivity.
Qed.

Lemma retry_is_sent_after_newer_save_witness :
  let s' := run fails_once 5
              (trigger (draft post_a "v2") (trigger (draft post_a "v1")
                 (Hook post_a Idle VNull None 0 true [] false 0 [] [] []))) in
  map origin (api_log s')
    = [draft post_a "v1"; draft post_a "v2"; draft post_a "v1"]
  /\ status s' = Saved
  /\ quiescent s'.
Proof.
  exact (retry_is_sent_after_newer_save fails_once
           (Hook post_a Idle VNull None 0 true [] false 0 [] [] [])
           (draft_obj post_a "v1") (draft_obj post_a "v2") VUndefined 0
           eq_refl eq_refl eq_refl eq_refl eq_refl eq_refl eq_refl
           eq_refl eq_refl eq_refl eq_refl eq_refl).
Defined.

End AutoSaveViewSpec.
(** * Properties of the store's post actions and of [EditorPage] *)

Module StoreSpec.
Import JS AutoSave Store.

Lemma strict_eq_spec (a b : val) : strict_eq a b = true <-> a = b.
Proof. unfold strict_eq. apply bool_decide_eq_true. Qed.

Lemma field_union_absent (k : string) (u cp : obj) :
  u !! k = None -> field k (u ∪ cp) = field k cp.
Proof.
  intros Hu. unfold field. rewrite lookup_union_r by exact Hu. reflexivity.
Qed.

Lemma field_union_present (k : string) (u cp : obj) (v : val) :
  u !! k = Some v -> field k (u ∪ cp) = v.
Proof.
  intros Hu. unfold field.
  rewrite (lookup_union_Some_l u cp k v Hu). reflexivity.
Qed.

Lemma or_else_string (t : string) : or_else (VStr t) (VStr "") = VStr t.
Proof.
  unfold or_else. simpl. destruct (String.eqb_spec t "") as [->|_]; reflexivity.
Qed.

(** X15 — After [updateCurrentPost], the list and the editor agree: every
    entry of [posts] that carries the id of the current post is the current
    post itself, whatever the update contains. *)
Theorem update_keeps_list_in_step (updates : obj) (s : store) (cp p : obj) :
  currentPost (updateCurrentPost updates s) = Some cp ->
  p ∈ posts (updateCurrentPost updates s) ->
  field "id" p = field "id" cp ->
  p = cp.
Proof.
  unfold updateCurrentPost. destruct (currentPost s) as [cp0|] eqn:Hcp.
  - simpl. intros [= <-] Hin Hid.
    apply list_elem_of_fmap in Hin as (q & -> & _).
    destruct (strict_eq (field "id" q) (field "id" (updates ∪ cp0))) eqn:E;
      [reflexivity|].
    exfalso. apply strict_eq_spec in Hid. congruence.
  - intros Hcp'. congruence.
Qed.

Lemma update_keeps_list_in_step_witness :
  let s' := updateCurrentPost {["title" := VStr "c"]}
              (Store [sample_post 1 "a"; sample_post 2 "b"]
                     (Some (sample_post 2 "b")) false VNull) in
  default ∅ (posts s' !! 1%nat) = default ∅ (currentPost s').
Proof.
  apply (update_keeps_list_in_step {["title" := VStr "c"]}
           (Store [sample_post 1 "a"; sample_post 2 "b"]
                  (Some (sample_post 2 "b")) false VNull)).
  - reflexivity.
  - apply (list_elem_of_lookup_2 _ 1%nat). reflexivity.
  - vm_compute. reflexivity.
Defined.

(** X16 — [updateCurrentPost] never adds, drops, reorders or re-identifies
    an entry of [posts]: the ids in the list are the same before and
    after. *)
Theorem update_keeps_ids (updates : obj) (s : store) :
  map (field "id") (posts (updateCurrentPost updates s))
  = map (field "id") (posts s).
Proof.
  unfold updateCurrentPost. destruct (currentPost s) as [cp|]; [|reflexivity].
  simpl. rewrite map_map. apply map_ext. intros q.
  destruct (strict_eq _ _) eqn:E; [|reflexivity].
  apply strict_eq_spec in E. symmetry. exact E.
Qed.

(** X17 — Two updates in a row, the second of which leaves the id alone, are
    one update with the union of the two in which the second wins. *)
Theorem updates_compose (u1 u2 : obj) (s : store) :
  u2 !! "id" = None ->
  updateCurrentPost u2 (updateCurrentPost u1 s)
  = updateCurrentPost (u2 ∪ u1) s.
Proof.
  intros Hid. unfold updateCurrentPost.
  destruct (currentPost s) as [cp|] eqn:Hcp; simpl; [|rewrite Hcp; reflexivity].
  rewrite <- (assoc_L (∪) u2 u1 cp).
  assert (Hsame : field "id" (u2 ∪ (u1 ∪ cp)) = field "id" (u1 ∪ cp))
    by (apply field_union_absent; exact Hid).
  f_equal. rewrite map_map. apply map_ext. intros q. rewrite Hsame.
  destruct (strict_eq (field "id" q) (field "id" (u1 ∪ cp))) eqn:E.
  - assert (E' : strict_eq (field "id" (u1 ∪ cp)) (field "id" (u1 ∪ cp)) = true)
      by (apply strict_eq_spec; reflexivity).
    rewrite E'. reflexivity.
  - rewrite E. reflexivity.
Qed.

Lemma updates_compose_witness :
  let s := Store [sample_post 1 "a"; sample_post 2 "b"]
                 (Some (sample_post 2 "b")) false VNull in
  updateCurrentPost {["content" := VRef 7]}
    (updateCurrentPost {["title" := VStr "c"]} s)
  = updateCurrentPost ({["content" := VRef 7]} ∪ {["title" := VStr "c"]}) s.
Proof.
  exact (updates_compose {["title" := VStr "c"]} {["content" := VRef 7]}
           (Store [sample_post 1 "a"; sample_post 2 "b"]
                  (Some (sample_post 2 "b")) false VNull) eq_refl).
Defined.

(** X18 — What the user typed is what the page hands to [useAutoSave]: after
    a title change and a content change, in either order, the content
    argument is [{ postId, title, content }] with the current post's own id,
    the typed title and the new editor content, and the id argument is that
    same id. *)
Theorem typed_values_reach_autosave (s : store) (cp : obj)
    (t : string) (c : val) :
  currentPost s = Some cp ->
  let expected : content :=
    Some (<["postId" := field "id" cp]>
          (<["title" := VStr t]> (<["content" := c]> ∅))) in
  let s1 := fst (handleContentChange c (fst (handleTitleChange t s))) in
  let s2 := fst (handleTitleChange t (fst (handleContentChange c s))) in
  autosave_postId s1 = field "id" cp
  /\ autosave_content (snd (handleContentChange c (fst (handleTitleChange t s)))) s1
     = expected
  /\ autosave_postId s2 = field "id" cp
  /\ autosave_content (snd (handleTitleChange t (fst (handleContentChange c s)))) s2
     = expected.
Proof.
  intros Hcp expected s1 s2. subst expected s1 s2.
  unfold handleContentChange, handleTitleChange, autosave_postId,
    autosave_content, updateCurrentPost.
  cbn [fst snd]. rewrite Hcp. cbn [currentPost opt_field].
  set (ut := ({["title" := VStr t]} : obj)).
  set (uc := ({["content" := c]} : obj)).
  assert (Ht : ut !! "title" = Some (VStr t)) by apply lookup_singleton_eq.
  assert (Hc : uc !! "content" = Some c) by apply lookup_singleton_eq.
  assert (Htid : ut !! "id" = None) by (apply lookup_singleton_ne; done).
  assert (Htc : ut !! "content" = None) by (apply lookup_singleton_ne; done).
  assert (Hcid : uc !! "id" = None) by (apply lookup_singleton_ne; done).
  assert (Hct : uc !! "title" = None) by (apply lookup_singleton_ne; done).
  rewrite !(field_union_absent "id") by assumption.
  rewrite (field_union_present "content" uc (ut ∪ cp) c Hc).
  rewrite (field_union_absent "title" uc (ut ∪ cp) Hct).
  rewrite (field_union_present "title" ut cp (VStr t) Ht).
  rewrite (field_union_present "title" ut (uc ∪ cp) (VStr t) Ht).
  rewrite (field_union_absent "content" ut (uc ∪ cp) Htc).
  rewrite (field_union_present "content" uc cp c Hc).
  rewrite or_else_string. repeat split; reflexivity.
Qed.

Lemma typed_values_reach_autosave_witness :
  let s := Store [sample_post 2 "b"] (Some (sample_post 2 "b")) false VNull in
  autosave_content
    (snd (handleContentChange (VRef 7) (fst (handleTitleChange "" s))))
    (fst (handleContentChange (VRef 7) (fst (handleTitleChange "" s))))
  = Some (<["postId" := VNum 2]>
          (<["title" := VStr ""]> (<["content" := VRef 7]> ∅))).
Proof.
  exact (proj1 (proj2 (typed_values_reach_autosave
           (Store [sample_post 2 "b"] (Some (sample_post 2 "b")) false VNull)
           (sample_post 2 "b") "" (VRef 7) eq_refl))).
Defined.

(** X19 — An idle hook bound to the current post, handed the content the
    page builds for that post, calls the server at once: the call goes to
    the post's id and its body has exactly the fields [title] (the empty
    string when the post has none) and [content]; the [postId] the page
    added for the identity test is not sent. *)
Theorem page_content_reaches_api (st : store) (cp : obj) (s : hook) :
  currentPost st = Some cp ->
  truthy (field "id" cp) = true ->
  postId s = autosave_postId st ->
  isSaving s = false -> retryCount s = 0%nat ->
  api_log (trigger (autosave_content true st) s)
  = api_log s
    ++ [ApiCall (clock s) (field "id" cp)
          (<["title" := or_else (field "title" cp) (VStr "")]>
           (<["content" := field "content" cp]> ∅))
          (autosave_content true st)].
Proof.
  intros Hcp Hid Hp Hsv Hrc.
  unfold autosave_postId in Hp. rewrite Hcp in Hp. simpl in Hp.
  unfold autosave_content. rewrite Hcp.
  set (o := <["postId" := field "id" cp]> _).
  assert (Hget : get_postId (Some o) = field "id" cp).
  { unfold get_postId, o. rewrite lookup_insert_eq. reflexivity. }
  assert (Hm : postId_mismatch (postId s) (Some o) = false).
  { unfold postId_mismatch, strict_ne. rewrite Hget, Hp.
    rewrite bool_decide_eq_true_2 by reflexivity. apply andb_false_r. }
  assert (Hbody : contentForAPI (Some o)
                  = <["title" := or_else (field "title" cp) (VStr "")]>
                    (<["content" := field "content" cp]> ∅)).
  { unfold contentForAPI, o. simpl. apply delete_insert_id.
    rewrite lookup_insert_ne by done. rewrite lookup_insert_ne by done.
    apply lookup_empty. }
  destruct s as [p st0 err ls rc mt q sv clk tms rn log].
  simpl in Hrc, Hp, Hsv, Hm. subst rc p sv.
  unfold trigger, saveContent. simpl. rewrite Hm, Hid. simpl.
  unfold issue_call. simpl. rewrite Hbody. reflexivity.
Qed.

Lemma page_content_reaches_api_witness :
  map seen
    (api_log (trigger
       (autosave_content true
          (Store [sample_post 2 "b"] (Some (sample_post 2 "b")) false VNull))
       (Hook (VNum 2) Idle VNull None 0 true [] false 0 [] [] [])))
  = [(VNum 2, <["title" := VStr "b"]> (<["content" := VRef 0]> ∅))].
Proof.
  rewrite (page_content_reaches_api
             (Store [sample_post 2 "b"] (Some (sample_post 2 "b")) false VNull)
             (sample_post 2 "b")
             (Hook (VNum 2) Idle VNull None 0 true [] false 0 [] [] [])
             eq_refl eq_refl eq_refl eq_refl eq_refl).
  reflexivity.
Defined.

(** X20 — Publishing keeps the list and the editor in step, provided the
    server returns the post that was asked for: if every list entry with
    the current post's id was the current post before, it is so after. *)
Theorem publish_keeps_list_in_step (postId : val) (publishedPost : obj)
    (s : store) :
  in_step s ->
  field "id" publishedPost = postId ->
  in_step (publishPost_ok postId publishedPost s).
Proof.
  intros Hs Hpub cp p. unfold publishPost_ok. simpl. intros Hcp Hin Hid.
  apply list_elem_of_fmap in Hin as (q & -> & Hq).
  destruct (strict_eq (opt_field "id" (currentPost s)) postId) eqn:Ecur.
  - injection Hcp as <-.
    destruct (strict_eq (field "id" q) postId) eqn:Eq; [reflexivity|].
    exfalso. rewrite Hpub in Hid. apply strict_eq_spec in Hid. congruence.
  - destruct (strict_eq (field "id" q) postId) eqn:Eq.
    + exfalso. rewrite Hcp in Ecur. simpl in Ecur.
      rewrite Hpub in Hid. symmetry in Hid.
      apply strict_eq_spec in Hid. congruence.
    + exact (Hs cp q Hcp Hq Hid).
Qed.

Lemma sample_store_in_step :
  in_step (Store [sample_post 1 "a"; sample_post 2 "b"]
                 (Some (sample_post 2 "b")) false VNull).
Proof.
  intros cp p. simpl. intros [= <-] Hin Hid.
  apply elem_of_cons in Hin as [->|Hin].
  - vm_compute in Hid. discriminate.
  - apply list_elem_of_singleton in Hin. exact Hin.
Qed.

Lemma publish_keeps_list_in_step_witness :
  in_step (publishPost_ok (VNum 2)
             (<["status" := VStr "published"]> (sample_post 2 "b"))
             (Store [sample_post 1 "a"; sample_post 2 "b"]
                    (Some (sample_post 2 "b")) false VNull)).
Proof.
  apply publish_keeps_list_in_step.
  - exact sample_store_in_step.
  - vm_compute. reflexivity.
Defined.

End StoreSpec.
(** * Properties of [AutoSavePlugin] *)

Module AutoSavePluginSpec.
Import JS AutoSavePlugin.

Lemma no_repeat_snoc (l : list editorState) (x : editorState) :
  no_repeat l -> last l ≠ Some x -> no_repeat (l ++ [x]).
Proof.
  intros Hl Hlast i a b Ha Hb.
  destruct (decide (S i < length l)%nat) as [Hlt|Hge].
  - rewrite lookup_app_l in Ha by lia. rewrite lookup_app_l in Hb by lia.
    exact (Hl i a b Ha Hb).
  - assert (Hi : (S i < length (l ++ [x]))%nat)
      by (apply lookup_lt_is_Some; eauto).
    rewrite length_app in Hi. simpl in Hi.
    assert (Hlen : length l = S i) by lia.
    rewrite lookup_app_l in Ha by lia.
    rewrite lookup_app_r in Hb by lia.
    rewrite Hlen, Nat.sub_diag in Hb. simpl in Hb. injection Hb as <-.
    intros ->. apply Hlast. rewrite last_lookup, Hlen. exact Ha.
Qed.

Lemma settled_no_pending (d : Debounce.dstate editorState) :
  Debounce.settled d -> Debounce.pending d = [].
Proof. intros [_ H]. exact H. Qed.

(** [callback] of a plugin whose [onContentChange] is present. *)
Lemma callback_sound es s :
  sound s -> truthy (onContentChangeRef s) = true -> sound (callback es s).
Proof.
  intros (H1 & H2 & H3 & H4 & H5 & H6) Hcb. unfold callback.
  destruct (bool_decide (lastSavedState s = Some es)) eqn:E.
  - repeat (split; [assumption|]); assumption.
  - apply bool_decide_eq_false in E. rewrite Hcb.
    split; [exact H1|]. split; [exact H2|]. split; [exact H3|].
    split; [exact H4|]. simpl. split.
    + rewrite last_snoc. reflexivity.
    + apply no_repeat_snoc; [exact H6 | rewrite <- H5; exact E].
Qed.

Lemma callback_forwarded es s :
  truthy (onContentChangeRef s) = true ->
  forwarded (callback es s)
  = if bool_decide (lastSavedState s = Some es) then forwarded s
    else forwarded s ++ [es].
Proof.
  intros Hcb. unfold callback.
  destruct (bool_decide (lastSavedState s = Some es)); [reflexivity|].
  simpl. rewrite Hcb. reflexivity.
Qed.

(** Time passing over a plugin with nothing scheduled. *)
Lemma elapse_idle T s :
  Debounce.settled (debouncedSave s) ->
  elapse T s = with_debouncedSave (Debounce.elapse T (debouncedSave s)) s
  /\ Debounce.settled (Debounce.elapse T (debouncedSave s)).
Proof.
  intros Hs. destruct (DebounceSpec.elapse_settled _ T Hs) as (Hs' & Hex & _).
  split; [|exact Hs']. unfold elapse. rewrite Hex, drop_all. reflexivity.
Qed.

(** Time passing short of the scheduled run. *)
Lemma elapse_waiting T s d a :
  Debounce.armed (debouncedSave s) d a -> T < d ->
  elapse T s = with_debouncedSave (Debounce.elapse T (debouncedSave s)) s
  /\ Debounce.armed (Debounce.elapse T (debouncedSave s)) d a.
Proof.
  intros Ha Hlt.
  destruct (DebounceSpec.elapse_armed_early _ d a T Ha Hlt) as (Ha' & Hex & _).
  split; [|exact Ha']. unfold elapse. rewrite Hex, drop_all. reflexivity.
Qed.

(** Time passing beyond the scheduled run: [callback] is called once. *)
Lemma elapse_runs T s d a :
  Debounce.armed (debouncedSave s) d a -> d <= T ->
  elapse T s
  = callback a (with_debouncedSave (Debounce.elapse T (debouncedSave s)) s)
  /\ Debounce.settled (Debounce.elapse T (debouncedSave s)).
Proof.
  intros Ha Hle.
  destruct (DebounceSpec.elapse_armed_late _ d a T Ha Hle) as (Hs' & Hex).
  split; [|exact Hs']. unfold elapse. rewrite Hex, drop_app_length. reflexivity.
Qed.

Lemma armed_pending (d0 : Debounce.dstate editorState) d a :
  Debounce.armed d0 d a -> Debounce.pending d0 ≠ [].
Proof. intros (id & _ & Hp). rewrite Hp. discriminate. Qed.

Lemma elapse_sound T s : sound s -> sound (elapse T s).
Proof.
  intros Hs. pose proof Hs as (H1 & H2 & H3 & H4 & H5 & H6).
  destruct H1 as [Hset | (d & a & Harm)].
  - destruct (elapse_idle T s Hset) as [-> Hset'].
    split; [left; exact Hset'|]. simpl.
    split; [intros Hp; exfalso; apply Hp, settled_no_pending, Hset'|].
    repeat (split; [assumption|]); assumption.
  - destruct (Z.lt_ge_cases T d) as [Hlt|Hle].
    + destruct (elapse_waiting T s d a Harm Hlt) as [-> Harm'].
      split; [right; eauto|]. simpl.
      split; [intros _; apply H2; eapply armed_pending; exact Harm|].
      repeat (split; [assumption|]); assumption.
    + destruct (elapse_runs T s d a Harm Hle) as [-> Hset'].
      apply callback_sound.
      * split; [left; exact Hset'|]. simpl.
        split; [intros Hp; exfalso; apply Hp, settled_no_pending, Hset'|].
        repeat (split; [assumption|]); assumption.
      * simpl. apply H3, H2. eapply armed_pending; exact Harm.
Qed.

Lemma on_update_sound es s : sound s -> sound (on_update es s).
Proof.
  intros Hs. unfold on_update. destruct (listening s) eqn:Hl; [|exact Hs].
  destruct Hs as (H1 & H2 & H3 & H4 & H5 & H6).
  split.
  - right. destruct H1 as [Hset | (d & a & Harm)].
    + destruct (DebounceSpec.debounced_settled delay es _ Hset) as (Ha & _).
      simpl. eauto.
    + destruct (DebounceSpec.debounced_armed delay es _ d a Harm) as (Ha & _).
      simpl. eauto.
  - simpl. split; [intros _; exact Hl|]. repeat (split; [assumption|]); assumption.
Qed.

Lemma cancel_settled (d0 : Debounce.dstate editorState) :
  Debounce.settled d0 \/ (exists d a, Debounce.armed d0 d a) ->
  Debounce.settled (Debounce.cancel d0).
Proof.
  intros [Hset | (d & a & Harm)].
  - unfold Debounce.cancel. destruct Hset as [Hid Hp]. rewrite Hid.
    split; assumption.
  - apply (DebounceSpec.cancel_settles _ d a Harm).
Qed.

Lemma cleanup_sound s :
  sound s ->
  sound (cleanup s) /\ Debounce.settled (debouncedSave (cleanup s)).
Proof.
  intros (H1 & H2 & H3 & H4 & H5 & H6).
  pose proof (cancel_settled _ H1) as Hset.
  split; [|exact Hset].
  split; [left; exact Hset|]. simpl.
  split; [intros Hp; exfalso; apply Hp, settled_no_pending, Hset|].
  split; [discriminate|]. repeat (split; [assumption|]); assumption.
Qed.

(** Once the cleanup has run or no listener was registered, nothing is
    scheduled. *)
Lemma quiet_after_cleanup s :
  sound s ->
  let s1 := if listening s then cleanup s else s in
  sound s1 /\ Debounce.settled (debouncedSave s1).
Proof.
  intros Hs. simpl. destruct (listening s) eqn:Hl.
  - apply cleanup_sound, Hs.
  - split; [exact Hs|]. destruct Hs as (H1 & H2 & _).
    destruct H1 as [Hset | (d & a & Harm)]; [exact Hset|].
    apply armed_pending, H2 in Harm. congruence.
Qed.

Lemma registers_callback pid cb : registers pid cb = true -> truthy cb = true.
Proof. unfold registers. intros H. apply andb_true_iff in H as [_ H]. exact H. Qed.

Lemma rerender_sound pid cb s : sound s -> sound (rerender pid cb s).
Proof.
  intros Hs. unfold rerender.
  destruct (strict_ne pid (dep_postId s) || strict_ne cb (dep_onContentChange s))
    eqn:Hch.
  - rewrite andb_true_l.
    destruct (quiet_after_cleanup s Hs) as [(H1 & H2 & H3 & H4 & H5 & H6) Hset].
    split; [left; exact Hset|]. simpl.
    split; [intros Hp; exfalso; apply Hp, settled_no_pending, Hset|].
    split; [apply registers_callback|]. split; [reflexivity|].
    split; assumption.
  - rewrite andb_false_l. destruct Hs as (H1 & H2 & H3 & H4 & H5 & H6).
    apply orb_false_iff in Hch as [_ Hcb].
    unfold strict_ne in Hcb. apply negb_false_iff, bool_decide_eq_true in Hcb.
    subst cb. split; [exact H1|]. simpl.
    split; [exact H2|]. split; [rewrite <- H4; exact H3|].
    split; [reflexivity|]. split; assumption.
Qed.

Lemma unmount_sound s : sound s -> sound (unmount s).
Proof. intros Hs. apply (quiet_after_cleanup s Hs). Qed.

Lemma step_sound e s : sound s -> sound (step e s).
Proof.
  destruct e; simpl;
    auto using on_update_sound, elapse_sound, rerender_sound, unmount_sound.
Qed.

Lemma mount_sound t0 pid cb : sound (mount t0 pid cb).
Proof.
  split; [left; split; reflexivity|]. simpl.
  split; [intros H; congruence|]. split; [apply registers_callback|].
  split; [reflexivity|]. split; [reflexivity|].
  intros i x y Hx. rewrite lookup_nil in Hx. discriminate.
Qed.

Lemma steps_sound evs s : sound s -> sound (steps evs s).
Proof.
  revert s. induction evs as [|e evs IH]; intros s Hs; [exact Hs|].
  apply IH, step_sound, Hs.
Qed.

(** X21 — Whatever the editor, the clock and the page do after the plugin
    is mounted, [onContentChange] is never called twice in a row for the
    same editor state. *)
Theorem same_state_is_not_forwarded_twice (t0 : Z) (pid cb : val)
    (evs : list event) :
  no_repeat (forwarded (steps evs (mount t0 pid cb))).
Proof.
  pose proof (steps_sound evs _ (mount_sound t0 pid cb)) as Hs.
  apply Hs.
Qed.

(** X22 — An edit that is still waiting for its two seconds of quiet is
    lost when the plugin is unmounted or re-rendered for another post or
    another callback: however long one waits afterwards, nothing more is
    passed to [onContentChange]. *)
Theorem pending_edit_is_dropped_on_restart (t0 : Z) (pid cb : val)
    (evs : list event) (e : event) (T : Z) :
  let s := steps evs (mount t0 pid cb) in
  restarts e s = true ->
  forwarded (elapse T (step e s)) = forwarded s.
Proof.
  intros s Hr.
  pose proof (steps_sound evs _ (mount_sound t0 pid cb)) as Hs. fold s in Hs.
  destruct (quiet_after_cleanup s Hs) as [_ Hset]. simpl in Hset.
  assert (Hq : Debounce.settled (debouncedSave (step e s))
               /\ forwarded (step e s) = forwarded s).
  { destruct e as [es|T'|pid' cb'|]; simpl in Hr; try discriminate.
    - simpl. unfold rerender. rewrite Hr, andb_true_l. simpl.
      split; [exact Hset|]. destruct (listening s); reflexivity.
    - simpl. unfold unmount. split; [exact Hset|].
      destruct (listening s); reflexivity. }
  destruct Hq as [Hset' Hfw].
  destruct (elapse_idle T (step e s) Hset') as [-> _]. simpl. exact Hfw.
Qed.

Lemma pending_edit_is_dropped_on_restart_witness :
  forwarded (elapse 10000
    (step (Rerender (VNum 2) (VRef 0))
       (steps [Update 5%nat; Elapse 1000] (mount 0 (VNum 1) (VRef 0)))))
  = [].
Proof.
  exact (pending_edit_is_dropped_on_restart 0 (VNum 1) (VRef 0)
           [Update 5%nat; Elapse 1000] (Rerender (VNum 2) (VRef 0)) 10000
           eq_refl).
Defined.

(** X23 — An editor update followed by two seconds of quiet reaches
    [onContentChange] exactly once, unless its state is the one handled
    last, in which case nothing is passed. *)
Theorem quiet_update_is_forwarded (t0 : Z) (pid cb : val)
    (evs : list event) (es : editorState) (T : Z) :
  let s := steps evs (mount t0 pid cb) in
  listening s = true ->
  Debounce.clock (debouncedSave s) + delay <= T ->
  forwarded (elapse T (on_update es s))
  = if bool_decide (lastSavedState s = Some es) then forwarded s
    else forwarded s ++ [es].
Proof.
  intros s Hl HT.
  pose proof (steps_sound evs _ (mount_sound t0 pid cb)) as Hs. fold s in Hs.
  destruct Hs as (H1 & H2 & H3 & H4 & H5 & H6).
  assert (Harm : Debounce.armed (debouncedSave (on_update es s))
                   (Debounce.clock (debouncedSave s) + delay) es).
  { unfold on_update. rewrite Hl. simpl.
    destruct H1 as [Hset | (d & a & Harm)].
    - apply (DebounceSpec.debounced_settled delay es _ Hset).
    - apply (DebounceSpec.debounced_armed delay es _ d a Harm). }
  destruct (elapse_runs T _ _ es Harm HT) as [-> _].
  rewrite callback_forwarded.
  - unfold on_update. rewrite Hl. reflexivity.
  - unfold on_update. rewrite Hl. simpl. apply H3, Hl.
Qed.

Lemma quiet_update_is_forwarded_witness :
  forwarded (elapse 2000 (on_update 5%nat (steps [] (mount 0 (VNum 1) (VRef 0)))))
  = [5%nat].
Proof.
  exact (quiet_update_is_forwarded 0 (VNum 1) (VRef 0) [] 5%nat 2000
           eq_refl ltac:(vm_compute; discriminate)).
Defined.

End AutoSavePluginSpec.
(** * Properties of [authService] and of the API client's interceptors *)

Module ApiSpec.
Import Auth Api.

(** X24 — A 401 answer logs the user out: the storage is what
    [authService.logout] leaves, [isAuthenticated] is false, the page is sent
    to [/login], and the next request leaves without an [Authorization]
    header added.  Any other failure leaves storage and location alone. *)
Theorem unauthorized_answer_logs_out (status : option Z) (b : browser)
    (h : headers) :
  let b' := on_response_error status b in
  if bool_decide (status = Some 401) then
    localStorage b' = logout (localStorage b)
    /\ isAuthenticated (localStorage b') = false
    /\ location_href b' = "/login"
    /\ on_request b' h = h
  else b' = b.
Proof.
  unfold on_response_error.
  destruct (bool_decide (status = Some 401)); [|reflexivity].
  simpl.
  assert (Htok : delete "user" (delete "token" (localStorage b)) !! "token"
                 = None).
  { rewrite lookup_delete_ne by done. apply lookup_delete_eq. }
  split.
  - unfold logout, removeUser, removeToken, USER_KEY, TOKEN_KEY. reflexivity.
  - split; [|split; [reflexivity|]].
    + unfold isAuthenticated, getToken, TOKEN_KEY. rewrite Htok. reflexivity.
    + unfold on_request. simpl. rewrite Htok. reflexivity.
Qed.

(** X25 — A token stored with [setToken] is the one the next request
    carries: [Authorization] is [Bearer <token>], whatever the header was
    before, every other header is untouched, and [isAuthenticated] is true.
    The empty string is stored but counts as no token. *)
Theorem stored_token_is_sent (token : string) (b : browser) (h : headers) :
  let b' := Browser (setToken token (localStorage b)) (location_href b) in
  isAuthenticated (localStorage b') = negb (String.eqb token "")
  /\ on_request b' h
     = if String.eqb token "" then h
       else <["Authorization" := "Bearer " +:+ token]> h.
Proof.
  simpl. unfold isAuthenticated, getToken, on_request, setToken, TOKEN_KEY.
  simpl. rewrite lookup_insert_eq. simpl.
  destruct (String.eqb token ""); split; reflexivity.
Qed.

End ApiSpec.
